(** * The Alert block tool of Editor.js (src/index.js)

    A shallow embedding of the [Alert] class: its static members, its
    constructor and its instance methods, over a small model of the
    JavaScript values and of the DOM operations the class calls. *)

From Stdlib Require Import Ascii String SpecFloat.
From stdpp Require Import base option strings list gmap.

Local Open Scope string_scope.

(** ** JavaScript values *)

(** The values a saved record, a configuration or a flag can hold.
    Numbers are IEEE doubles; an object or array, plain as saved data
    has them, is kept by its identity. *)
Inductive JSValue : Type :=
  | JUndefined
  | JNull
  | JBool (b : bool)
  | JNumber (x : spec_float)
  | JString (s : string)
  | JObject (o : nat).

(** ToBoolean: [undefined], [null], [false], [+0], [-0], [NaN] and the
    empty string are falsy. *)
Definition ToBoolean (v : JSValue) : bool :=
  match v with
  | JUndefined | JNull => false
  | JBool b => b
  | JNumber (S754_zero _) | JNumber S754_nan => false
  | JNumber _ => true
  | JString s => negb (String.eqb s "")
  | JObject _ => true
  end.

(** [a || b] *)
Definition js_or (a b : JSValue) : JSValue :=
  if ToBoolean a then a else b.

(** [!a] *)
Definition js_not (a : JSValue) : JSValue := JBool (negb (ToBoolean a)).

(** [v === s] for a string [s]. *)
Definition strict_eq_string (v : JSValue) (s : string) : bool :=
  match v with
  | JString s' => String.eqb s' s
  | _ => false
  end.

(** [array.includes(v)] on an array of strings (SameValueZero). *)
Definition includes (array : list string) (v : JSValue) : bool :=
  existsb (strict_eq_string v) array.

(** ** The host: what the browser computes and the source only calls *)

Definition loc := nat.

(** A child node of an element: an element of the document, or a node
    that is not an element (a text node, a comment), kept by the markup
    it serialises to. *)
Inductive Node : Type :=
  | Text (markup : string)
  | Child (el : loc).

(** The closure registered by [renderSettings] on a settings button; it
    captures [type], [settingsContainer] and [settingsButton]. *)
Inductive Listener : Type :=
  | SelectType (type : string) (settingsContainer settingsButton : loc).

Record Element : Type := {
  tagName : string;
  classList : list string;
  contentEditable : string;
  dataset : gmap string string;
  expando : gmap string JSValue;
  childNodes : list Node;
  listeners : list (string * Listener);
}.

Unset Elimination Schemes.

(** What the HTML parser builds from a piece of markup, in document
    order: nodes that are not elements, and elements with their
    children. Of [element] the tag name, the class list and the
    attributes count; its children are [children], and a parsed element
    has no listener. *)
Inductive Markup : Type :=
  | MText (markup : string)
  | MElement (element : Element) (children : list Markup).

Set Elimination Schemes.

(** Text of ASCII letters and digits: markup that stands for itself. *)
Definition alphanumeric (c : ascii) : bool :=
  let n := nat_of_ascii c in
  ((48 <=? n)%nat && (n <=? 57)%nat) || ((65 <=? n)%nat && (n <=? 90)%nat)
  || ((97 <=? n)%nat && (n <=? 122)%nat).

Definition plain_text (s : string) : bool :=
  negb (String.eqb s "") && forallb alphanumeric (list_ascii_of_string s).

Class Host : Type := {
  (** Number::toString *)
  NumberToString : spec_float → string;
  (** ToString of an object *)
  ObjectToString : nat → string;
  (** the HTML fragment parser, as the [innerHTML] setter runs it *)
  parseHTML : string → list Markup;
  (** the serialisation of an element node, given that of its content;
      of the element it is given the tag name, the class list and the
      attributes *)
  elementMarkup : Element → string → string;
  (** [root.querySelectorAll(`.${name}`)] on a document, for a name that
      is more than a plain class name; [None] where the selector does
      not parse *)
  selectOther : string → gmap loc Element → loc → option (list loc);
  (** the empty string parses to no node, and text of letters and
      digits to one text node *)
  parseHTML_empty : parseHTML "" = [];
  parseHTML_text : ∀ s, plain_text s = true → parseHTML s = [MText s];
}.

(** ** The instance and the store *)

(** AlertData: the tool's input and output record. *)
Record AlertData : Type := {
  type : JSValue;
  message : JSValue;
}.

(** AlertConfig: the user configuration of the tool. *)
Record AlertConfig : Type := {
  config_defaultType : JSValue;
  config_messagePlaceholder : JSValue;
}.

(** The part of the Editor.js API the tool reads: [api.styles]. *)
Record Api : Type := {
  styles_settingsButton : string;
  styles_settingsButtonActive : string;
}.

(** The fields of an [Alert] instance. [data] refers to a record of the
    store, [container] is [undefined] until [render] has run. *)
Record Alert : Type := {
  api : Api;
  defaultType : JSValue;
  messagePlaceholder : JSValue;
  data : loc;
  container : option loc;
  readOnly : JSValue;
}.

(** The instance, the elements of the document and the records created
    by object literals. *)
Record State : Type := {
  this : Alert;
  elements : gmap loc Element;
  records : gmap loc AlertData;
}.

Definition set_this (f : Alert → Alert) (σ : State) : State :=
  {| this := f (this σ); elements := elements σ; records := records σ |}.
Definition set_elements (f : gmap loc Element → gmap loc Element)
    (σ : State) : State :=
  {| this := this σ; elements := f (elements σ); records := records σ |}.
Definition set_records (f : gmap loc AlertData → gmap loc AlertData)
    (σ : State) : State :=
  {| this := this σ; elements := elements σ; records := f (records σ) |}.

Definition with_data (d : loc) (a : Alert) : Alert :=
  {| api := api a; defaultType := defaultType a;
     messagePlaceholder := messagePlaceholder a; data := d;
     container := container a; readOnly := readOnly a |}.
Definition with_container (c : option loc) (a : Alert) : Alert :=
  {| api := api a; defaultType := defaultType a;
     messagePlaceholder := messagePlaceholder a; data := data a;
     container := c; readOnly := readOnly a |}.

Definition with_type (t : JSValue) (d : AlertData) : AlertData :=
  {| type := t; message := message d |}.
Definition with_message (m : JSValue) (d : AlertData) : AlertData :=
  {| type := type d; message := m |}.

Definition with_classList (f : list string → list string) (e : Element)
    : Element :=
  {| tagName := tagName e; classList := f (classList e);
     contentEditable := contentEditable e; dataset := dataset e;
     expando := expando e; childNodes := childNodes e;
     listeners := listeners e |}.
Definition with_contentEditable (v : string) (e : Element) : Element :=
  {| tagName := tagName e; classList := classList e;
     contentEditable := v; dataset := dataset e;
     expando := expando e; childNodes := childNodes e;
     listeners := listeners e |}.
Definition with_dataset (f : gmap string string → gmap string string)
    (e : Element) : Element :=
  {| tagName := tagName e; classList := classList e;
     contentEditable := contentEditable e; dataset := f (dataset e);
     expando := expando e; childNodes := childNodes e;
     listeners := listeners e |}.
Definition with_expando (f : gmap string JSValue → gmap string JSValue)
    (e : Element) : Element :=
  {| tagName := tagName e; classList := classList e;
     contentEditable := contentEditable e; dataset := dataset e;
     expando := f (expando e); childNodes := childNodes e;
     listeners := listeners e |}.
Definition with_childNodes (f : list Node → list Node) (e : Element)
    : Element :=
  {| tagName := tagName e; classList := classList e;
     contentEditable := contentEditable e; dataset := dataset e;
     expando := expando e; childNodes := f (childNodes e);
     listeners := listeners e |}.
Definition with_listeners
    (f : list (string * Listener) → list (string * Listener))
    (e : Element) : Element :=
  {| tagName := tagName e; classList := classList e;
     contentEditable := contentEditable e; dataset := dataset e;
     expando := expando e; childNodes := childNodes e;
     listeners := f (listeners e) |}.

(** What [document.createElement(tag)] returns. *)
Definition newElement (tag : string) : Element :=
  {| tagName := tag; classList := []; contentEditable := "inherit";
     dataset := ∅; expando := ∅; childNodes := []; listeners := [] |}.

(** The element as the serialiser is given it. *)
Definition shallow (e : Element) : Element :=
  with_listeners (λ _, []) (with_childNodes (λ _, []) e).

(** The nodes the parser built, once they are nodes of the document:
    every element gets a new place in the store, its children first. *)
Fixpoint insertMarkup (t : Markup) (els : gmap loc Element)
    : Node * gmap loc Element :=
  match t with
  | MText markup => (Text markup, els)
  | MElement e children =>
      let inserted :=
        (fix insertAll (ts : list Markup) (els : gmap loc Element)
             : list Node * gmap loc Element :=
           match ts with
           | [] => ([], els)
           | t :: ts' =>
               let first := insertMarkup t els in
               let rest := insertAll ts' first.2 in
               (first.1 :: rest.1, rest.2)
           end) children els in
      let el := fresh (dom inserted.2) in
      (Child el,
       <[el := with_listeners (λ _, [])
                 (with_childNodes (λ _, inserted.1) e)]> inserted.2)
  end.

Fixpoint insertMarkups (ts : list Markup) (els : gmap loc Element)
    : list Node * gmap loc Element :=
  match ts with
  | [] => ([], els)
  | t :: ts' =>
      let first := insertMarkup t els in
      let rest := insertMarkups ts' first.2 in
      (first.1 :: rest.1, rest.2)
  end.

Global Instance Element_inhabited : Inhabited Element :=
  populate (newElement "").
Global Instance AlertData_inhabited : Inhabited AlertData :=
  populate {| type := JUndefined; message := JUndefined |}.
Global Instance Node_eq_dec : EqDecision Node.
Proof. solve_decision. Defined.

(** ** Computations: state and exceptions *)

Inductive Exception : Type :=
  | TypeError
  | SyntaxError
  | InvalidCharacterError
  | HierarchyRequestError.

Inductive Completion (A : Type) : Type :=
  | Normal (a : A)
  | Throw (e : Exception).
Global Arguments Normal {A} a.
Global Arguments Throw {A} e.

(** A statement sequence: it runs on a state and completes normally or
    abruptly; the mutations made before a [throw] stay. *)
Definition JS (A : Type) : Type := State → Completion A * State.

Global Instance JS_ret : MRet JS := λ A a σ, (Normal a, σ).
Global Instance JS_bind : MBind JS := λ A B f m σ,
  match m σ with
  | (Normal a, σ') => f a σ'
  | (Throw e, σ') => (Throw e, σ')
  end.

Definition throw {A} (e : Exception) : JS A := λ σ, (Throw e, σ).
Definition gets {A} (f : State → A) : JS A := λ σ, (Normal (f σ), σ).
Definition modify (f : State → State) : JS unit := λ σ, (Normal (), f σ).

(** [array.forEach(f)] *)
Fixpoint forEach {A} (f : A → JS unit) (array : list A) : JS unit :=
  match array with
  | [] => mret ()
  | x :: array' => f x;; forEach f array'
  end.

Definition getElement (el : loc) : JS Element :=
  gets (λ σ, elements σ !!! el).
Definition modifyElement (el : loc) (f : Element → Element) : JS unit :=
  modify (set_elements (alter f el)).

(** ** The DOM operations the class calls *)

(** [document.createElement(tag)] *)
Definition createElement (tag : string) : JS loc := λ σ,
  let el := fresh (dom (elements σ)) in
  (Normal el, set_elements (insert el (newElement tag)) σ).

(** ASCII whitespace: TAB, LF, FF, CR and SPACE. *)
Definition ascii_whitespace (c : ascii) : bool :=
  (Ascii.eqb c "009" || Ascii.eqb c "010" || Ascii.eqb c "012"
   || Ascii.eqb c "013" || Ascii.eqb c " ")%char.

Fixpoint has_whitespace (s : string) : bool :=
  match s with
  | EmptyString => false
  | String c s' => ascii_whitespace c || has_whitespace s'
  end.

(** The check [DOMTokenList] makes on every token it is given. *)
Definition check_token (token : string) : JS unit :=
  if String.eqb token "" then throw SyntaxError
  else if has_whitespace token then throw InvalidCharacterError
  else mret ().

Definition valid_token (token : string) : bool :=
  negb (String.eqb token "") && negb (has_whitespace token).

Definition add_token (tokens : list string) (token : string)
    : list string :=
  if bool_decide (token ∈ tokens) then tokens else (tokens ++ [token])%list.

Definition remove_token (tokens : list string) (token : string)
    : list string :=
  filter (λ t, t ≠ token) tokens.

(** [el.classList.add(...tokens)] *)
Definition classList_add (el : loc) (tokens : list string) : JS unit :=
  forEach check_token tokens;;
  modifyElement el (with_classList (λ cl, foldl add_token cl tokens)).

(** [el.classList.remove(...tokens)] *)
Definition classList_remove (el : loc) (tokens : list string) : JS unit :=
  forEach check_token tokens;;
  modifyElement el (with_classList (λ cl, foldl remove_token cl tokens)).

(** [el.classList.contains(cls)] *)
Definition hasClass (els : gmap loc Element) (el : loc) (cls : string)
    : bool :=
  bool_decide (cls ∈ classList (els !!! el)).

(** The elements below [el] in tree order, down to [depth] levels. *)
Fixpoint descendantsUpTo (depth : nat) (els : gmap loc Element) (el : loc)
    : list loc :=
  match depth with
  | 0 => []
  | S depth' =>
      flat_map (λ n, match n with
                     | Text _ => []
                     | Child c => c :: descendantsUpTo depth' els c
                     end) (childNodes (els !!! el))
  end.

(** The descendants of [el]: no branch of a tree is longer than the
    number of its elements. *)
Definition descendants (els : gmap loc Element) (el : loc) : list loc :=
  descendantsUpTo (size els) els el.

(** A class name made of letters, digits, hyphens and underscores that
    starts with a letter or an underscore: both a token [classList]
    accepts and an identifier a selector [.name] can hold. *)
Definition name_start (c : ascii) : bool :=
  let n := nat_of_ascii c in
  ((65 <=? n)%nat && (n <=? 90)%nat) || ((97 <=? n)%nat && (n <=? 122)%nat)
  || Ascii.eqb c "_"%char.

Definition name_char (c : ascii) : bool :=
  let n := nat_of_ascii c in
  name_start c || ((48 <=? n)%nat && (n <=? 57)%nat) || Ascii.eqb c "-"%char.

Definition class_name (s : string) : bool :=
  match s with
  | EmptyString => false
  | String c s' => name_start c && forallb name_char (list_ascii_of_string s')
  end.

(** The characters an identifier of a selector can start with: a letter,
    an underscore, a hyphen, a backslash or a character beyond ASCII. *)
Definition ident_start (c : ascii) : bool :=
  name_start c || Ascii.eqb c "-"%char || Ascii.eqb c "\"%char
  || (128 <=? nat_of_ascii c)%nat.

(** The document once [child] has left the parent it had. *)
Definition detached (child : loc) (els : gmap loc Element)
    : gmap loc Element :=
  with_childNodes (filter (λ n, n ≠ Child child)) <$> els.

(** [parent.appendChild(child)]: [child] leaves the parent it had and
    becomes the last child of [parent]. *)
Definition appendChild (parent child : loc) : JS unit :=
  below ← gets (λ σ, descendants (elements σ) child);
  if bool_decide (parent ∈ child :: below) then throw HierarchyRequestError
  else
    modify (set_elements (λ els,
      alter (with_childNodes (λ ns, (ns ++ [Child child])%list)) parent
        (detached child els))).

(** [el.addEventListener(event, listener)] *)
Definition addEventListener (el : loc) (event : string) (l : Listener)
    : JS unit :=
  modifyElement el (with_listeners (λ ls, (ls ++ [(event, l)])%list)).

Definition ascii_lower (c : ascii) : ascii :=
  let n := nat_of_ascii c in
  if (65 <=? n)%nat && (n <=? 90)%nat then ascii_of_nat (n + 32) else c.

Fixpoint string_lower (s : string) : string :=
  match s with
  | EmptyString => EmptyString
  | String c s' => String (ascii_lower c) (string_lower s')
  end.

Section WithHost.
Context `{Host}.

(** [el.querySelectorAll(`.${cls}`)]: the descendants with the class
    [cls] in tree order when [cls] is a class name; a SyntaxError when
    no identifier starts the way [cls] does; what the selector engine
    makes of it otherwise. *)
Definition querySelectorAll (el : loc) (cls : string) : JS (list loc) :=
  if class_name cls then
    gets (λ σ, List.filter (λ d, hasClass (elements σ) d cls)
                 (descendants (elements σ) el))
  else
    match cls with
    | EmptyString => throw SyntaxError
    | String c _ =>
        if ident_start c then
          found ← gets (λ σ, selectOther cls (elements σ) el);
          match found with
          | Some ds => mret ds
          | None => throw SyntaxError
          end
        else throw SyntaxError
    end.

(** [el.querySelector(`.${cls}`)]; [None] is [null]. *)
Definition querySelector (el : loc) (cls : string) : JS (option loc) :=
  ds ← querySelectorAll el cls; mret (head ds).

(** ToString *)
Definition ToString (v : JSValue) : string :=
  match v with
  | JUndefined => "undefined"
  | JNull => "null"
  | JBool true => "true"
  | JBool false => "false"
  | JNumber x => NumberToString x
  | JString s => s
  | JObject o => ObjectToString o
  end.

(** The markup [el.innerHTML = v] parses: [null] counts as the empty
    string. *)
Definition assignedMarkup (v : JSValue) : list Markup :=
  parseHTML (match v with JNull => "" | _ => ToString v end).

(** [el.innerHTML = v]: the nodes parsed from [v] become nodes of the
    document and replace the children of [el]. *)
Definition set_innerHTML (el : loc) (v : JSValue) : JS unit :=
  modify (set_elements (λ els,
    let inserted := insertMarkups (assignedMarkup v) els in
    alter (with_childNodes (λ _, inserted.1)) el inserted.2)).

(** [el.contentEditable = v] *)
Definition set_contentEditable (el : loc) (v : JSValue) : JS unit :=
  let state := string_lower (ToString v) in
  if bool_decide (state ∈ ["true"; "false"; "plaintext-only"; "inherit"])
  then modifyElement el (with_contentEditable state)
  else throw SyntaxError.

(** [el[name] = v] *)
Definition setProperty (el : loc) (name : string) (v : JSValue) : JS unit :=
  if String.eqb name "innerHTML" then set_innerHTML el v
  else if String.eqb name "contentEditable" then set_contentEditable el v
  else modifyElement el (with_expando (insert name v)).

(** [el.dataset[key] = v] *)
Definition set_dataset (el : loc) (key : string) (v : JSValue) : JS unit :=
  modifyElement el (with_dataset (insert key (ToString v))).

(** The serialisation of the children of [el], down to [depth] levels. *)
Fixpoint serializeUpTo (depth : nat) (els : gmap loc Element) (el : loc)
    : string :=
  match depth with
  | 0 => ""
  | S depth' =>
      String.concat ""
        (map (λ n, match n with
                   | Text markup => markup
                   | Child c =>
                       elementMarkup (shallow (els !!! c))
                         (serializeUpTo depth' els c)
                   end) (childNodes (els !!! el)))
  end.

(** The serialisation of one node, its children down to [depth]
    levels. *)
Definition serializeNode (depth : nat) (els : gmap loc Element) (n : Node)
    : string :=
  match n with
  | Text markup => markup
  | Child c => elementMarkup (shallow (els !!! c)) (serializeUpTo depth els c)
  end.

(** [el.innerHTML] *)
Definition innerHTML (els : gmap loc Element) (el : loc) : string :=
  serializeUpTo (size els) els el.

Definition get_innerHTML (el : loc) : JS string :=
  gets (λ σ, innerHTML (elements σ) el).

(** ** The class [Alert] *)

(** Static members. The toolbox icon is an imported asset and is left
    out. *)
Definition toolbox_title : string := "Alert".
Definition enableLineBreaks : bool := true.
Definition DEFAULT_TYPE : string := "info".
Definition DEFAULT_MESSAGE_PLACEHOLDER : string := "Type here...".
Definition ALERT_TYPES : list string := ["info"; "hinweis"; "warnung"].
Definition isReadOnlySupported : bool := true.
Definition sanitize : list (string * bool) :=
  [("type", false); ("message", true)].

(** [get CSS()] *)
Definition CSS_settingsButton (a : Alert) : string :=
  styles_settingsButton (api a).
Definition CSS_settingsButtonActive (a : Alert) : string :=
  styles_settingsButtonActive (api a).
Definition CSS_wrapper : string := "meldung".
Definition CSS_wrapperForType (ty : JSValue) : string :=
  "meldung_" ++ ToString ty.
Definition CSS_message : string := "cdx-alert__message".

(** An object literal [{ type: ..., message: ... }]: a new record. *)
Definition newRecord (d : AlertData) : JS loc := λ σ,
  let r := fresh (dom (records σ)) in
  (Normal r, set_records (insert r d) σ).

(** [this.data] *)
Definition currentData (σ : State) : AlertData :=
  records σ !!! data (this σ).
Definition getData : JS AlertData := gets currentData.

(** [this.container.] followed by a property: a TypeError while the
    container is [undefined]. *)
Definition getContainer : JS loc :=
  c ← gets (λ σ, container (this σ));
  match c with
  | Some el => mret el
  | None => throw TypeError
  end.

(** The second argument of [_make]: [null], an array or a string. *)
Inductive ClassNames : Type :=
  | NoClassNames
  | ClassArray (names : list string)
  | ClassName (name : string).

(** [_make(tagName, classNames = null, attributes = {})] *)
Definition _make (tagName : string) (classNames : ClassNames)
    (attributes : list (string * JSValue)) : JS loc :=
  el ← createElement tagName;
  match classNames with
  | ClassArray names => classList_add el names
  | ClassName name =>
      if ToBoolean (JString name) then classList_add el [name] else mret ()
  | NoClassNames => mret ()
  end;;
  forEach (λ '(attrName, v), setProperty el attrName v) attributes;;
  mret el.

(** The argument of the constructor: [{ data, config, api, readOnly }]. *)
Record ConstructorArgs : Type := {
  arg_data : AlertData;
  arg_config : AlertConfig;
  arg_api : Api;
  arg_readOnly : JSValue;
}.

(** [constructor({ data, config, api, readOnly })] *)
Definition constructor (args : ConstructorArgs) : JS unit :=
  let defaultType :=
    js_or (config_defaultType (arg_config args)) (JString DEFAULT_TYPE) in
  let messagePlaceholder :=
    js_or (config_messagePlaceholder (arg_config args))
      (JString DEFAULT_MESSAGE_PLACEHOLDER) in
  d ← newRecord
        {| type := if includes ALERT_TYPES (type (arg_data args))
                   then type (arg_data args)
                   else defaultType;
           message := js_or (message (arg_data args)) (JString "") |};
  modify (set_this (λ _,
    {| api := arg_api args; defaultType := defaultType;
       messagePlaceholder := messagePlaceholder; data := d;
       container := None; readOnly := arg_readOnly args |})).

(** [render()] *)
Definition render : JS loc :=
  d ← getData;
  let containerClasses := [CSS_wrapper; CSS_wrapperForType (type d)] in
  c ← _make "div" (ClassArray containerClasses) [];
  modify (set_this (with_container (Some c)));;
  readOnly ← gets (λ σ, readOnly (this σ));
  d ← getData;
  messageEl ← _make "div" (ClassArray [CSS_message])
                 [("contentEditable", js_not readOnly);
                  ("innerHTML", message d)];
  placeholder ← gets (λ σ, messagePlaceholder (this σ));
  set_dataset messageEl "placeholder" placeholder;;
  c ← getContainer;
  appendChild c messageEl;;
  getContainer.

(** [_changeAlertType(newType)] *)
Definition _changeAlertType (newType : string) : JS unit :=
  modify (λ σ,
    set_records (alter (with_type (JString newType)) (data (this σ))) σ);;
  forEach (λ ty,
    let alertClass := CSS_wrapperForType (JString ty) in
    c ← getContainer;
    classList_remove c [alertClass];;
    if String.eqb newType ty
    then c ← getContainer; classList_add c [alertClass]
    else mret ()) ALERT_TYPES.

(** [renderSettings()] *)
Definition renderSettings : JS loc :=
  settingsContainer ← _make "div" NoClassNames [];
  forEach (λ ty,
    a ← gets this;
    settingsButton ← _make "div"
        (ClassArray [CSS_settingsButton a; CSS_wrapper;
                     CSS_wrapperForType (JString ty)])
        [("innerHTML", JString "A")];
    d ← getData;
    (if strict_eq_string (type d) ty
     then classList_add settingsButton [CSS_settingsButtonActive a]
     else mret ());;
    addEventListener settingsButton "click"
      (SelectType ty settingsContainer settingsButton);;
    appendChild settingsContainer settingsButton) ALERT_TYPES;;
  mret settingsContainer.

(** The click handler set up by [renderSettings]. *)
Definition runListener (l : Listener) : JS unit :=
  match l with
  | SelectType ty settingsContainer settingsButton =>
      _changeAlertType ty;;
      a ← gets this;
      buttons ← querySelectorAll settingsContainer (CSS_settingsButton a);
      forEach (λ button,
        classList_remove button [CSS_settingsButtonActive a]) buttons;;
      classList_add settingsButton [CSS_settingsButtonActive a]
  end.

(** A click on [target]: its click listeners run in the order they were
    added; an exception of a listener is the outcome of the click. *)
Definition click (target : loc) : JS unit :=
  e ← getElement target;
  forEach (λ '(event, l),
    if String.eqb event "click" then runListener l else mret ())
    (listeners e).

(** [save(alertElement)]; the result refers to the new record. *)
Definition save (alertElement : loc) : JS loc :=
  messageEl ← querySelector alertElement CSS_message;
  d ← getData;
  match messageEl with
  | None => throw TypeError
  | Some el =>
      html ← get_innerHTML el;
      newRecord (with_message (JString html) d)
  end.

(** [event.detail.data]: the pasted element, or a value of another kind
    given by what its [innerHTML] property reads. *)
Inductive Pasted : Type :=
  | PastedElement (el : loc)
  | PastedOther (innerHTML : JSValue).

Record PasteEvent : Type := { detail_data : Pasted }.

(** [onPaste(event)] *)
Definition onPaste (event : PasteEvent) : JS unit :=
  html ← match detail_data event with
         | PastedElement el => s ← get_innerHTML el; mret (JString s)
         | PastedOther v => mret v
         end;
  defaultType ← gets (λ σ, defaultType (this σ));
  d ← newRecord {| type := defaultType;
                   message := js_or html (JString "") |};
  modify (set_this (with_data d)).

(** [conversionConfig.export] and [conversionConfig.import] *)
Definition conversionConfig_export (d : AlertData) : JSValue := message d.
Definition conversionConfig_import (s : string) : AlertData :=
  {| message := JString s; type := JString DEFAULT_TYPE |}.

End WithHost.

(** ** Notions used by the statements *)

(** A value is a supported type when it is one of the strings of
    [ALERT_TYPES]. *)
Definition supported (v : JSValue) : Prop :=
  ∃ s, v = JString s ∧ s ∈ ALERT_TYPES.

(** The document [els'] is [els] with [count] more elements, each
    without listeners and with children among the new elements. *)
Definition extends (els els' : gmap loc Element) (count : nat) : Prop :=
  (∀ l, l ∈ dom els → els' !! l = els !! l) ∧
  (∀ l e, els' !! l = Some e → l ∉ dom els →
     listeners e = [] ∧
     ∀ x, Child x ∈ childNodes e → (x ∉ dom els) ∧ x ∈ dom els') ∧
  size els' = size els + count.

(** The document [els'] is [els] but for class lists. *)
Definition restyled (els els' : gmap loc Element) : Prop :=
  dom els' = dom els ∧
  ∀ l e, els !! l = Some e →
    ∃ e', els' !! l = Some e' ∧ e' = with_classList (λ _, classList e') e.

(** The elements among the nodes [ns] are new elements of [els']. *)
Definition new_nodes (els els' : gmap loc Element) (ns : list Node) : Prop :=
  ∀ x, Child x ∈ ns → (x ∉ dom els) ∧ x ∈ dom els'.

(** The state a [new Alert(...)] starts from: an object whose fields the
    constructor is about to assign, in an empty store. *)
Definition blank : Alert :=
  {| api := {| styles_settingsButton := "";
               styles_settingsButtonActive := "" |};
     defaultType := JUndefined; messagePlaceholder := JUndefined;
     data := 0; container := None; readOnly := JUndefined |}.

Definition initial : State :=
  {| this := blank; elements := ∅; records := ∅ |}.

(** The styles of the Editor.js API. *)
Definition editorApi : Api :=
  {| styles_settingsButton := "cdx-settings-button";
     styles_settingsButtonActive := "cdx-settings-button--active" |}.

(** A record and a configuration to run the tool on. *)
Definition exampleArgs : ConstructorArgs :=
  {| arg_data := {| type := JString "warnung";
                    message := JString "Achtung" |};
     arg_config := {| config_defaultType := JUndefined;
                      config_messagePlaceholder := JUndefined |};
     arg_api := editorApi;
     arg_readOnly := JBool false |}.

(** How the serialiser escapes text and attribute values. *)
Fixpoint escape (s : string) : string :=
  match s with
  | EmptyString => EmptyString
  | String c s' =>
      (if Ascii.eqb c "&" then "&amp;"
       else if Ascii.eqb c "<" then "&lt;"
       else if Ascii.eqb c ">" then "&gt;"
       else String c EmptyString) ++ escape s'
  end.

Definition quote : string := String (ascii_of_nat 34) EmptyString.

Fixpoint escapeAttribute (s : string) : string :=
  match s with
  | EmptyString => EmptyString
  | String c s' =>
      (if Ascii.eqb c "&" then "&amp;"
       else if Ascii.eqb c (ascii_of_nat 34) then "&quot;"
       else String c EmptyString) ++ escapeAttribute s'
  end.

Definition attribute (name value : string) : string :=
  " " ++ name ++ "=" ++ quote ++ escapeAttribute value ++ quote.

(** The serialisation of an element the class or the parser of the
    example hosts built: its tag with the attributes [class],
    [contenteditable] and [data-*], around its content. *)
Definition plainMarkup (e : Element) (inner : string) : string :=
  "<" ++ tagName e
  ++ (match classList e with
      | [] => ""
      | _ => attribute "class" (String.concat " " (classList e))
      end)
  ++ (if String.eqb (contentEditable e) "inherit" then ""
      else attribute "contenteditable" (contentEditable e))
  ++ String.concat ""
       (map (λ kv, attribute ("data-" ++ kv.1) kv.2)
          (map_to_list (dataset e)))
  ++ ">" ++ inner ++ "</" ++ tagName e ++ ">".

(** A host for text without tags and character references: the parser
    makes one text node of it, which serialises with its ampersands and
    angle brackets escaped; it knows no selector but the class names. *)
Definition plainHost : Host.
Proof.
  refine
    {| NumberToString := λ _, "0";
       ObjectToString := λ _, "[object Object]";
       parseHTML := λ html,
         if String.eqb html "" then [] else [MText (escape html)];
       elementMarkup := plainMarkup;
       selectOther := λ _ _ _, None;
       parseHTML_empty := eq_refl;
       parseHTML_text := _ |}.
  intros s [Hne Hs]%andb_prop. apply negb_true_iff in Hne. rewrite Hne.
  do 2 f_equal. clear Hne. induction s as [|c s IH]; [done |].
  cbn [list_ascii_of_string forallb] in Hs. apply andb_prop in Hs as [Hc Hs].
  cbn [escape]. rewrite (IH Hs).
  by destruct c as [[] [] [] [] [] [] [] []].
Defined.

(** A piece of markup with an element of the message class in it, and a
    host that parses it, and everything else as [plainHost] does. *)
Definition exampleMarkup : string := "<p class='cdx-alert__message'>x</p>".

Definition markupHost : Host.
Proof.
  refine
    {| NumberToString := NumberToString (Host := plainHost);
       ObjectToString := ObjectToString (Host := plainHost);
       parseHTML := λ html,
         if String.eqb html exampleMarkup
         then [MElement
                 (with_classList (λ _, ["cdx-alert__message"])
                    (newElement "p"))
                 [MText "x"]]
         else parseHTML (Host := plainHost) html;
       elementMarkup := plainMarkup;
       selectOther := λ _ _ _, None;
       parseHTML_empty := eq_refl;
       parseHTML_text := _ |}.
  intros s Hs. destruct (String.eqb_spec s exampleMarkup) as [-> | _];
    [discriminate | by apply (parseHTML_text (Host := plainHost))].
Defined.

Section Notions.
Context `{Host}.

(** The document [_make] leaves, as a value: the element it creates at
    a new place with the tokens it adds, the properties it assigns, and
    [None] where the DOM throws. *)
Definition classTokens (classNames : ClassNames) : list string :=
  match classNames with
  | NoClassNames => []
  | ClassArray names => names
  | ClassName name => if ToBoolean (JString name) then [name] else []
  end.

Definition assigned (els : gmap loc Element) (el : loc) (name : string)
    (v : JSValue) : option (gmap loc Element) :=
  if String.eqb name "innerHTML" then
    let inserted := insertMarkups (assignedMarkup v) els in
    Some (alter (with_childNodes (λ _, inserted.1)) el inserted.2)
  else if String.eqb name "contentEditable" then
    let state := string_lower (ToString v) in
    if bool_decide (state ∈ ["true"; "false"; "plaintext-only"; "inherit"])
    then Some (alter (with_contentEditable state) el els)
    else None
  else Some (alter (with_expando (insert name v)) el els).

Fixpoint assignedAll (els : gmap loc Element) (el : loc)
    (attributes : list (string * JSValue)) : option (gmap loc Element) :=
  match attributes with
  | [] => Some els
  | (name, v) :: attributes' =>
      els' ← assigned els el name v; assignedAll els' el attributes'
  end.

Definition made (els : gmap loc Element) (tagName : string)
    (classNames : ClassNames) (attributes : list (string * JSValue))
    : option (gmap loc Element) :=
  if forallb valid_token (classTokens classNames) then
    assignedAll
      (<[fresh (dom els) :=
           with_classList (λ cl, foldl add_token cl (classTokens classNames))
             (newElement tagName)]> els)
      (fresh (dom els)) attributes
  else None.

(** The two elements [render] builds. *)
Definition renderedContainer (d : AlertData) (messageEl : loc) : Element :=
  {| tagName := "div";
     classList :=
       foldl add_token [] [CSS_wrapper; CSS_wrapperForType (type d)];
     contentEditable := "inherit"; dataset := ∅; expando := ∅;
     childNodes := [Child messageEl]; listeners := [] |}.

Definition renderedMessage (a : Alert) (d : AlertData) (kids : list Node)
    : Element :=
  {| tagName := "div"; classList := [CSS_message];
     contentEditable := if ToBoolean (readOnly a) then "false" else "true";
     dataset := <["placeholder" := ToString (messagePlaceholder a)]> ∅;
     expando := ∅; childNodes := kids;
     listeners := [] |}.

(** The serialisation of what the parser built. *)
Fixpoint serializeMarkup (t : Markup) : string :=
  match t with
  | MText markup => markup
  | MElement e children =>
      elementMarkup (shallow e)
        (String.concat "" (map serializeMarkup children))
  end.

(** What [el.innerHTML] reads right after [el.innerHTML = v]: the
    serialisation of what the parser built from [v]. *)
Definition readBack (v : JSValue) : string :=
  String.concat "" (map serializeMarkup (assignedMarkup v)).

(** The number of elements the parser built, and the number of levels
    of nodes below an element it built. *)
Fixpoint elementCount (t : Markup) : nat :=
  match t with
  | MText _ => 0
  | MElement _ children => S (sum_list (map elementCount children))
  end.

Fixpoint levels (t : Markup) : nat :=
  match t with
  | MText _ => 0
  | MElement _ children => max_list (map (λ t, S (levels t)) children)
  end.

(** What the tool needs of [api.styles]: two class names, the one for
    the active button being none of the classes the tool itself puts on
    a settings button. *)
Definition wf_api (a : Api) : Prop :=
  class_name (styles_settingsButton a) = true ∧
  class_name (styles_settingsButtonActive a) = true ∧
  styles_settingsButtonActive a ∉
    styles_settingsButton a :: CSS_wrapper ::
      map (λ ty, CSS_wrapperForType (JString ty)) ALERT_TYPES.

(** The references of the instance point into the store. *)
Definition wf_state (σ : State) : Prop :=
  is_Some (records σ !! data (this σ)) ∧
  ∀ c, container (this σ) = Some c → is_Some (elements σ !! c).

(** The settings button [renderSettings] builds for the type [ty]. *)
Definition settingsButtonElement (a : Alert) (d : AlertData) (ty : string)
    (settingsContainer settingsButton : loc) : Element :=
  {| tagName := "div";
     classList :=
       foldl add_token
         (foldl add_token []
            [CSS_settingsButton a; CSS_wrapper;
             CSS_wrapperForType (JString ty)])
         (if strict_eq_string (type d) ty
          then [CSS_settingsButtonActive a] else []);
     contentEditable := "inherit"; dataset := ∅; expando := ∅;
     childNodes := [Text "A"];
     listeners :=
       [("click", SelectType ty settingsContainer settingsButton)] |}.

(** One round of the loop of [renderSettings], on the document. *)
Definition addButton (a : Alert) (d : AlertData) (settingsContainer : loc)
    (els : gmap loc Element) (ty : string) : gmap loc Element :=
  let b := fresh (dom els) in
  alter (with_childNodes (λ ns, (ns ++ [Child b])%list)) settingsContainer
    (detached b
       (<[b := settingsButtonElement a d ty settingsContainer b]> els)).

(** [b] is the settings button for the type [ty]: it carries the button
    class, the wrapper class and the class of [ty], the active class
    exactly when [ty] is the type [current], and the click handler for
    [ty]. *)
Definition is_settingsButton (a : Alert) (current : JSValue)
    (els : gmap loc Element) (settingsContainer : loc) (ty : string)
    (b : loc) : Prop :=
  ∃ e, els !! b = Some e ∧
    CSS_settingsButton a ∈ classList e ∧
    CSS_wrapper ∈ classList e ∧
    CSS_wrapperForType (JString ty) ∈ classList e ∧
    (CSS_settingsButtonActive a ∈ classList e ↔ current = JString ty) ∧
    listeners e = [("click", SelectType ty settingsContainer b)].

(** The settings are in place: the instance has a rendered container
    [c] and a data record, and the elements [bs] carry the click
    handlers of the supported types, in their order. *)
Definition settings_ready (σ : State) (c settingsContainer : loc)
    (bs : list loc) : Prop :=
  wf_api (api (this σ)) ∧
  container (this σ) = Some c ∧
  is_Some (elements σ !! c) ∧
  is_Some (records σ !! data (this σ)) ∧
  Forall2 (λ ty b,
    listeners (elements σ !!! b)
      = [("click", SelectType ty settingsContainer b)])
    ALERT_TYPES bs.

(** [e'] is [e] with other child nodes. *)
Definition same_but_children (e e' : Element) : Prop :=
  e' = with_childNodes (λ _, childNodes e') e.

(** The document once the click handler has taken the active class from
    the buttons it found. *)
Definition unhighlighted (active : string) (els : gmap loc Element)
    (buttons : list loc) : gmap loc Element :=
  foldl (λ els button,
    alter (with_classList (λ cl, foldl remove_token cl [active])) button els)
    els buttons.

(** One round of the loop of [_changeAlertType], on a class list. *)
Definition retypedOnce (newType : string) (cl : list string) (ty : string)
    : list string :=
  let alertClass := CSS_wrapperForType (JString ty) in
  if String.eqb newType ty
  then add_token (remove_token cl alertClass) alertClass
  else remove_token cl alertClass.

Definition retyped (newType : string) (cl : list string) : list string :=
  foldl (retypedOnce newType) cl ALERT_TYPES.

(** The calls the editor makes on an instance once it is constructed;
    an exception of one call does not keep the editor from the next. *)
Inductive Call : Type :=
  | CallRender
  | CallRenderSettings
  | CallSave (alertElement : loc)
  | CallOnPaste (event : PasteEvent)
  | CallClick (target : loc).

Definition call (c : Call) : JS unit :=
  match c with
  | CallRender => render;; mret ()
  | CallRenderSettings => renderSettings;; mret ()
  | CallSave alertElement => save alertElement;; mret ()
  | CallOnPaste event => onPaste event
  | CallClick target => click target
  end.

Fixpoint calls (cs : list Call) (σ : State) : State :=
  match cs with
  | [] => σ
  | c :: cs' => calls cs' (call c σ).2
  end.

(** The fields of the instance that only the constructor assigns. *)
Definition configuration (a : Alert) : Api * JSValue * JSValue * JSValue :=
  (api a, defaultType a, messagePlaceholder a, readOnly a).

(** From a state with [P], the computation [m] completes normally in a
    state with [Q], or abruptly in a state with [E]. *)
Definition hoare {A} (P : State → Prop) (m : JS A)
    (Q : A → State → Prop) (E : State → Prop) : Prop :=
  ∀ σ, P σ →
    match m σ with
    | (Normal a, σ') => Q a σ'
    | (Throw _, σ') => E σ'
    end.

(** [m] keeps the invariant [I], however it completes. *)
Definition keeps (I : State → Prop) {A} (m : JS A) : Prop :=
  hoare I m (λ _, I) I.

(** An invariant that the updates the class makes respect: a change of
    the document that removes no element, a change of a record, a new
    record, the assignment of an element of the document to
    [this.container] and that of a new record to [this.data]. *)
Class Stable (I : State → Prop) : Prop := {
  stable_elements : ∀ f σ,
    (∀ els, dom els ⊆ dom (f els)) → I σ → I (set_elements f σ);
  stable_alter : ∀ f l σ, I σ → I (set_records (alter f l) σ);
  stable_new : ∀ d σ,
    I σ → I (set_records (insert (fresh (dom (records σ))) d) σ);
  stable_container : ∀ c σ,
    c ∈ dom (elements σ) → I σ → I (set_this (with_container (Some c)) σ);
  stable_data : ∀ d σ,
    I σ →
    I (set_this (with_data (fresh (dom (records σ))))
         (set_records (insert (fresh (dom (records σ))) d) σ));
}.

(** [event.detail.data.innerHTML] *)
Definition pastedHTML (els : gmap loc Element) (p : Pasted) : JSValue :=
  match p with
  | PastedElement el => JString (innerHTML els el)
  | PastedOther v => v
  end.

(** A valid record: a supported type and a string as message. *)
Definition valid_record (d : AlertData) : Prop :=
  ∃ ty msg,
    d = {| type := JString ty; message := JString msg |} ∧
    ty ∈ ALERT_TYPES.

(** The child nodes of [e] that are elements are elements of the
    document. *)
Definition closed (els : gmap loc Element) (e : Element) : Prop :=
  ∀ x, Child x ∈ childNodes e → x ∈ dom els.

(** The classes of the supported types. *)
Definition typeClasses : list string :=
  map (λ ty, CSS_wrapperForType (JString ty)) ALERT_TYPES.

(** The settings are shown: they are in place, the elements below the
    settings container are the buttons [bs], each with the button class,
    and the rendered container is none of them. *)
Definition settings_shown (σ : State) (c settingsContainer : loc)
    (bs : list loc) : Prop :=
  settings_ready σ c settingsContainer bs ∧
  descendants (elements σ) settingsContainer = bs ∧
  Forall (λ b, hasClass (elements σ) b (CSS_settingsButton (this σ)) = true)
    bs ∧
  NoDup bs ∧ c ∉ bs.

End Notions.

(** The first descendant of [el], in tree order, with class [cls]: what
    [querySelector] finds. *)
Definition firstWithClass (els : gmap loc Element) (el : loc)
    (cls : string) : option loc :=
  head (List.filter (λ d, hasClass els d cls) (descendants els el)).

(** The example block once constructed and rendered on [plainHost]: the
    container is element 0 and the message element is element 1. *)
Definition exampleRendered : State :=
  ((constructor exampleArgs;; render (H := plainHost)) initial).2.

(** The example block with its settings rendered: the settings
    container is element 2 and the buttons are elements 3, 4 and 5. *)
Definition exampleSettings : State :=
  (renderSettings (H := plainHost) exampleRendered).2.

(** ** The constructor *)

Lemma includes_supported v : includes ALERT_TYPES v = true ↔ supported v.
Proof.
  unfold includes, supported. rewrite existsb_exists. split.
  - intros (s & Hin & Heq). destruct v; try discriminate.
    apply String.eqb_eq in Heq. subst. exists s.
    split; [done | by apply list_elem_of_In].
  - intros (s & -> & Hin). exists s.
    split; [by apply list_elem_of_In | apply String.eqb_refl].
Qed.

Lemma constructor_run args σ :
  constructor args σ =
    (Normal (),
     {| this :=
          {| api := arg_api args;
             defaultType :=
               js_or (config_defaultType (arg_config args))
                 (JString DEFAULT_TYPE);
             messagePlaceholder :=
               js_or (config_messagePlaceholder (arg_config args))
                 (JString DEFAULT_MESSAGE_PLACEHOLDER);
             data := fresh (dom (records σ));
             container := None;
             readOnly := arg_readOnly args |};
        elements := elements σ;
        records :=
          <[fresh (dom (records σ)) :=
              {| type := if includes ALERT_TYPES (type (arg_data args))
                         then type (arg_data args)
                         else js_or (config_defaultType (arg_config args))
                                (JString DEFAULT_TYPE);
                 message := js_or (message (arg_data args)) (JString "") |}]>
            (records σ) |}).
Proof. reflexivity. Qed.

Lemma constructor_data args σ :
  currentData (constructor args σ).2 =
    {| type := if includes ALERT_TYPES (type (arg_data args))
               then type (arg_data args)
               else js_or (config_defaultType (arg_config args))
                      (JString DEFAULT_TYPE);
       message := js_or (message (arg_data args)) (JString "") |}.
Proof.
  rewrite constructor_run. unfold currentData. simpl.
  apply lookup_total_insert_eq.
Qed.

(** C1, as the specification states it, fails: a configured default
    type is taken as it is, so an unsupported [config.defaultType]
    becomes the type of a record whose own type is missing. *)
Lemma constructor_type_unsupported :
  ¬ supported
      (type (currentData
        (constructor
           {| arg_data := {| type := JUndefined; message := JUndefined |};
              arg_config := {| config_defaultType := JString "danger";
                               config_messagePlaceholder := JUndefined |};
              arg_api := editorApi;
              arg_readOnly := JBool false |} initial).2)).
Proof.
  rewrite constructor_data. cbn [type]. rewrite <- includes_supported.
  vm_compute. discriminate.
Qed.

(** C1, amended: when no default type is configured, or the configured
    one is itself supported, the type of the instance's data after
    construction is a member of [ALERT_TYPES], for every input record. *)
Theorem constructor_type_supported args σ :
  ToBoolean (config_defaultType (arg_config args)) = false
    ∨ supported (config_defaultType (arg_config args)) →
  supported (type (currentData (constructor args σ).2)).
Proof.
  intros Hcfg. rewrite constructor_data. cbn [type].
  destruct (includes ALERT_TYPES (type (arg_data args))) eqn:Hin.
  - by apply includes_supported.
  - unfold js_or. destruct Hcfg as [-> | Hs].
    + apply includes_supported. reflexivity.
    + destruct (ToBoolean _); [done | apply includes_supported; reflexivity].
Qed.

Lemma constructor_type_supported_witness :
  supported
    (type (currentData
      (constructor
         {| arg_data := {| type := JString "success"; message := JNull |};
            arg_config := {| config_defaultType := JString "warnung";
                             config_messagePlaceholder := JUndefined |};
            arg_api := editorApi;
            arg_readOnly := JBool true |} initial).2)).
Proof.
  apply constructor_type_supported. right. simpl.
  apply includes_supported. reflexivity.
Defined.

(** C3: an input type that is missing or unsupported is replaced by the
    configured default type when there is one (a truthy
    [config.defaultType]) and by ['info'] otherwise; a missing message
    is replaced by the empty string. *)
Theorem constructor_fallbacks args σ :
  let d := currentData (constructor args σ).2 in
  let configured := config_defaultType (arg_config args) in
  (type (arg_data args) = JUndefined ∨ ¬ supported (type (arg_data args)) →
     (ToBoolean configured = true → type d = configured) ∧
     (ToBoolean configured = false → type d = JString "info")) ∧
  (message (arg_data args) = JUndefined → message d = JString "").
Proof.
  intros d configured. subst d. rewrite constructor_data. cbn [type message].
  split.
  - intros Hns.
    destruct (includes ALERT_TYPES (type (arg_data args))) eqn:Hin.
    { apply includes_supported in Hin. destruct Hns as [Hu | Hns]; [| done].
      rewrite Hu in Hin. by destruct Hin as (s & [=] & _). }
    unfold js_or. fold configured. by split; intros ->.
  - by intros ->.
Qed.

Lemma constructor_fallbacks_witness :
  let d :=
    currentData
      (constructor
         {| arg_data := {| type := JString "danger"; message := JUndefined |};
            arg_config := {| config_defaultType := JString "hinweis";
                             config_messagePlaceholder := JUndefined |};
            arg_api := editorApi;
            arg_readOnly := JBool false |} initial).2 in
  type d = JString "hinweis" ∧ message d = JString "".
Proof.
  pose proof (constructor_fallbacks
    {| arg_data := {| type := JString "danger"; message := JUndefined |};
       arg_config := {| config_defaultType := JString "hinweis";
                        config_messagePlaceholder := JUndefined |};
       arg_api := editorApi;
       arg_readOnly := JBool false |} initial) as [Htype Hmessage].
  split.
  - apply Htype; [| reflexivity]. right.
    rewrite <- includes_supported. vm_compute. discriminate.
  - apply Hmessage. reflexivity.
Defined.


(** ** The nodes the parser builds *)

Section Insert.

Lemma Markup_ind (P : Markup → Prop) :
  (∀ markup, P (MText markup)) →
  (∀ e children, Forall P children → P (MElement e children)) →
  ∀ t, P t.
Proof.
  intros Htext Helement. fix IH 1. intros [markup|e children].
  - apply Htext.
  - apply Helement.
    induction children as [|t ts IHts]; constructor; [apply IH | apply IHts].
Qed.

Lemma insertMarkup_element e children els :
  insertMarkup (MElement e children) els =
    (Child (fresh (dom (insertMarkups children els).2)),
     <[fresh (dom (insertMarkups children els).2) :=
         with_listeners (λ _, [])
           (with_childNodes (λ _, (insertMarkups children els).1) e)]>
       (insertMarkups children els).2).
Proof. reflexivity. Qed.

Lemma extends_refl els : extends els els 0.
Proof.
  split_and!; [done | | lia]. intros l e Hl Hnew. exfalso.
  apply Hnew. by apply elem_of_dom.
Qed.

Lemma extends_dom els els' count l :
  extends els els' count → l ∈ dom els → l ∈ dom els'.
Proof.
  intros (Hframe & _) Hl. apply elem_of_dom. rewrite (Hframe l Hl).
  by apply elem_of_dom.
Qed.

Lemma extends_trans els1 els2 els3 count1 count2 :
  extends els1 els2 count1 → extends els2 els3 count2 →
  extends els1 els3 (count1 + count2).
Proof.
  intros H12 H23. pose proof H12 as (Hf1 & Hn1 & Hs1).
  pose proof H23 as (Hf2 & Hn2 & Hs2). split_and!.
  - intros l Hl. rewrite Hf2 by (by eapply extends_dom). by apply Hf1.
  - intros l e Hl Hnew. destruct (decide (l ∈ dom els2)) as [Hin | Hnin].
    + rewrite Hf2 in Hl by done. destruct (Hn1 l e Hl Hnew) as [Hls Hkids].
      split; [done |]. intros x Hx. destruct (Hkids x Hx) as [Hx1 Hx2].
      split; [done | by eapply extends_dom].
    + destruct (Hn2 l e Hl Hnin) as [Hls Hkids]. split; [done |].
      intros x Hx. destruct (Hkids x Hx) as [Hx1 Hx2]. split; [| done].
      intros Hin. apply Hx1. by eapply extends_dom.
  - lia.
Qed.

Lemma new_nodes_mono els1 els2 els3 count1 count2 ns :
  extends els1 els2 count1 → extends els2 els3 count2 →
  new_nodes els2 els3 ns → new_nodes els1 els3 ns.
Proof.
  intros H12 H23 Hns x Hx. destruct (Hns x Hx) as [Hx1 Hx2].
  split; [| done]. intros Hin. apply Hx1. by eapply extends_dom.
Qed.

Lemma new_nodes_later els1 els2 els3 count1 count2 ns :
  extends els1 els2 count1 → extends els2 els3 count2 →
  new_nodes els1 els2 ns → new_nodes els1 els3 ns.
Proof.
  intros H12 H23 Hns x Hx. destruct (Hns x Hx) as [Hx1 Hx2].
  split; [done | by eapply extends_dom].
Qed.

(** What the insertion of parsed nodes does to a document. *)
Lemma insertMarkups_of ts :
  Forall (λ t, ∀ els,
    extends els (insertMarkup t els).2 (elementCount t) ∧
    new_nodes els (insertMarkup t els).2 [(insertMarkup t els).1]) ts →
  ∀ els,
    extends els (insertMarkups ts els).2 (sum_list (map elementCount ts)) ∧
    new_nodes els (insertMarkups ts els).2 (insertMarkups ts els).1.
Proof.
  induction 1 as [|t ts Ht _ IH]; intros els.
  { split; [apply extends_refl |]. intros x Hx. by apply elem_of_nil in Hx. }
  cbn [insertMarkups map sum_list fst snd].
  destruct (Ht els) as [He1 Hn1].
  destruct (IH (insertMarkup t els).2) as [He2 Hn2].
  split; [by eapply extends_trans |].
  intros x [Hx | Hx]%elem_of_cons.
  - eapply new_nodes_later; [done | done | done |]. rewrite Hx. by left.
  - by eapply new_nodes_mono.
Qed.

Lemma insertMarkup_extends t : ∀ els,
  extends els (insertMarkup t els).2 (elementCount t) ∧
  new_nodes els (insertMarkup t els).2 [(insertMarkup t els).1].
Proof.
  induction t as [markup|e children IH] using Markup_ind; intros els.
  { split; [apply extends_refl |].
    by intros x [=]%list_elem_of_singleton. }
  rewrite insertMarkup_element. cbn [fst snd elementCount].
  destruct (insertMarkups_of children IH els) as [He Hn].
  set (ins := insertMarkups children els) in *.
  set (c := fresh (dom ins.2)).
  assert (c ∉ dom ins.2) as Hc by apply is_fresh.
  assert (c ∉ dom els) as Hc' by (intros Hin; by eapply Hc, extends_dom).
  destruct He as (Hf & Hnew & Hsize). split.
  - split_and!.
    + intros l Hl. rewrite lookup_insert_ne; [by apply Hf |]. by intros <-.
    + intros l e' Hl Hl'. destruct (decide (c = l)) as [<- | Hne].
      * rewrite lookup_insert_eq in Hl. injection Hl as <-.
        split; [done |]. cbn [with_listeners with_childNodes childNodes].
        intros x Hx. destruct (Hn x Hx) as [Hx1 Hx2]. split; [done |].
        rewrite dom_insert_L. by apply elem_of_union_r.
      * rewrite lookup_insert_ne in Hl by done.
        destruct (Hnew l e' Hl Hl') as [Hls Hkids]. split; [done |].
        intros x Hx. destruct (Hkids x Hx) as [Hx1 Hx2]. split; [done |].
        rewrite dom_insert_L. by apply elem_of_union_r.
    + rewrite map_size_insert_None by (by apply not_elem_of_dom). lia.
  - intros x [= <-]%list_elem_of_singleton. split; [done |].
    rewrite dom_insert_L. apply elem_of_union_l. by apply elem_of_singleton.
Qed.

Lemma insertMarkups_extends ts els :
  extends els (insertMarkups ts els).2 (sum_list (map elementCount ts)) ∧
  new_nodes els (insertMarkups ts els).2 (insertMarkups ts els).1.
Proof.
  apply insertMarkups_of, Forall_forall. intros t _.
  apply insertMarkup_extends.
Qed.

Lemma insertMarkups_length ts : ∀ els,
  length (insertMarkups ts els).1 = length ts.
Proof.
  induction ts as [|t ts IH]; intros els; [done |].
  cbn [insertMarkups fst length]. by rewrite IH.
Qed.

Lemma insertMarkups_dom ts els : dom els ⊆ dom (insertMarkups ts els).2.
Proof.
  intros l Hl. destruct (insertMarkups_extends ts els) as [He _].
  by eapply extends_dom.
Qed.

End Insert.

Section Serialize.
Context `{Host}.

Lemma serializeUpTo_S depth els el :
  serializeUpTo (S depth) els el =
    String.concat ""
      (map (serializeNode depth els) (childNodes (els !!! el))).
Proof. reflexivity. Qed.

Lemma levels_count t : (levels t ≤ elementCount t)%nat.
Proof.
  induction t as [markup|e children IH] using Markup_ind; [done |].
  cbn [levels elementCount].
  induction IH as [|t ts Ht _ IHts];
    cbn [map max_list_with sum_list_with id]; lia.
Qed.

Lemma shallow_inserted e kids :
  shallow (with_listeners (λ _, []) (with_childNodes (λ _, kids) e))
    = shallow e.
Proof. by destruct e. Qed.

(** The nodes inserted for what the parser built serialise to the
    serialisation of what the parser built, in every document that
    holds the new elements as they were inserted, once the depth
    covers their levels. *)
Lemma serialize_inserted_of ts :
  Forall (λ t, ∀ els els'' depth,
    (∀ l, l ∉ dom els → l ∈ dom (insertMarkup t els).2 →
          els'' !! l = (insertMarkup t els).2 !! l) →
    (levels t ≤ depth)%nat →
    serializeNode depth els'' (insertMarkup t els).1 = serializeMarkup t)
    ts →
  ∀ els els'' depth,
    (∀ l, l ∉ dom els → l ∈ dom (insertMarkups ts els).2 →
          els'' !! l = (insertMarkups ts els).2 !! l) →
    Forall (λ t, (levels t ≤ depth)%nat) ts →
    map (serializeNode depth els'') (insertMarkups ts els).1
      = map serializeMarkup ts.
Proof.
  induction 1 as [|t ts Ht _ IH]; intros els els'' depth Hagree Hlevels;
    [done |].
  apply Forall_cons in Hlevels as [Hlevel Hlevels].
  cbn [insertMarkups map fst snd] in *.
  destruct (insertMarkup_extends t els) as [He1 _].
  destruct (insertMarkups_extends ts (insertMarkup t els).2) as [He2 _].
  f_equal.
  - apply Ht; [| done]. intros l Hl1 Hl2.
    rewrite Hagree; [| done | by eapply extends_dom].
    by apply (proj1 He2).
  - apply IH; [| done]. intros l Hl1 Hl2. apply Hagree; [| done].
    intros Hin. apply Hl1. by eapply extends_dom.
Qed.

Lemma serialize_inserted t : ∀ els els'' depth,
  (∀ l, l ∉ dom els → l ∈ dom (insertMarkup t els).2 →
        els'' !! l = (insertMarkup t els).2 !! l) →
  (levels t ≤ depth)%nat →
  serializeNode depth els'' (insertMarkup t els).1 = serializeMarkup t.
Proof.
  induction t as [markup|e children IH] using Markup_ind;
    intros els els'' depth Hagree Hlevels; [done |].
  rewrite insertMarkup_element in *. cbn [fst snd] in *.
  destruct (insertMarkups_extends children els) as [He Hn].
  set (ins := insertMarkups children els) in *.
  set (c := fresh (dom ins.2)) in *.
  assert (c ∉ dom ins.2) as Hc by apply is_fresh.
  assert (c ∉ dom els) as Hc' by (intros Hin; by eapply Hc, extends_dom).
  assert (els'' !! c
            = Some (with_listeners (λ _, [])
                      (with_childNodes (λ _, ins.1) e))) as Hlc.
  { rewrite Hagree; [apply lookup_insert_eq | done |].
    rewrite dom_insert_L. apply elem_of_union_l. by apply elem_of_singleton. }
  cbn [serializeNode serializeMarkup].
  rewrite (lookup_total_correct _ _ _ Hlc), shallow_inserted. f_equal.
  destruct depth as [|depth].
  { destruct children as [|t ts]; [done |].
    cbn [levels map max_list_with id] in Hlevels. lia. }
  rewrite serializeUpTo_S, (lookup_total_correct _ _ _ Hlc).
  cbn [with_listeners with_childNodes childNodes]. f_equal.
  apply (serialize_inserted_of children IH).
  - intros l Hl1 Hl2. rewrite Hagree; [| done |].
    + apply lookup_insert_ne. by intros <-.
    + rewrite dom_insert_L. by apply elem_of_union_r.
  - cbn [levels] in Hlevels. apply Forall_forall. intros t Ht.
    assert (S (levels t) ≤ max_list (map (λ t, S (levels t)) children))%nat.
    { apply max_list_elem_of_le, list_elem_of_In.
      apply (in_map (λ t, S (levels t))). by apply list_elem_of_In. }
    lia.
Qed.

(** Reading [innerHTML] from an element whose children are the nodes
    inserted for what the parser built. *)
Lemma innerHTML_inserted ts els els'' el :
  (∀ l, l ∉ dom els → l ∈ dom (insertMarkups ts els).2 →
        els'' !! l = (insertMarkups ts els).2 !! l) →
  childNodes (els'' !!! el) = (insertMarkups ts els).1 →
  (size (insertMarkups ts els).2 ≤ size els'')%nat → size els ≠ 0 →
  innerHTML els'' el = String.concat "" (map serializeMarkup ts).
Proof.
  intros Hagree Hkids Hsize Hne. unfold innerHTML.
  destruct (insertMarkups_extends ts els) as [(_ & _ & Hcount) _].
  destruct (size els'') as [|depth] eqn:Hdepth; [lia |].
  rewrite serializeUpTo_S, Hkids. f_equal.
  apply serialize_inserted_of; [| done |].
  - apply Forall_forall. intros t _. apply serialize_inserted.
  - apply Forall_forall. intros t Ht. pose proof (levels_count t).
    assert (elementCount t ≤ sum_list (map elementCount ts))%nat.
    { clear -Ht. induction ts as [|t' ts IH]; [by apply elem_of_nil in Ht |].
      cbn [map sum_list_with id]. apply elem_of_cons in Ht as [-> | Ht]; [lia |].
      specialize (IH Ht). lia. }
    lia.
Qed.

End Serialize.

(** ** Running the DOM operations *)

Section Runs.
Context `{Host}.

Lemma bind_run {A B} (m : JS A) (f : A → JS B) σ :
  (m ≫= f) σ =
    match m σ with
    | (Normal a, σ') => f a σ'
    | (Throw e, σ') => (Throw e, σ')
    end.
Proof. reflexivity. Qed.

Lemma check_tokens_run tokens σ :
  forallb valid_token tokens = true →
  forEach check_token tokens σ = (Normal (), σ).
Proof.
  induction tokens as [|t tokens IH]; [done |].
  cbn [forallb forEach]. intros [Ht Hts]%andb_prop.
  rewrite bind_run. unfold check_token at 1.
  apply andb_prop in Ht as [Hne Hws].
  apply negb_true_iff in Hne, Hws. rewrite Hne, Hws. by apply IH.
Qed.

Lemma classList_add_run el tokens σ :
  forallb valid_token tokens = true →
  classList_add el tokens σ =
    (Normal (),
     set_elements
       (alter (with_classList (λ cl, foldl add_token cl tokens)) el) σ).
Proof.
  intros Hv. unfold classList_add. rewrite bind_run, check_tokens_run by done.
  reflexivity.
Qed.

Lemma classList_remove_run el tokens σ :
  forallb valid_token tokens = true →
  classList_remove el tokens σ =
    (Normal (),
     set_elements
       (alter (with_classList (λ cl, foldl remove_token cl tokens)) el) σ).
Proof.
  intros Hv. unfold classList_remove.
  rewrite bind_run, check_tokens_run by done. reflexivity.
Qed.

(** Membership in a class list after [add] and [remove]. *)
Lemma elem_of_add_token cls tokens token :
  cls ∈ add_token tokens token ↔ cls ∈ tokens ∨ cls = token.
Proof.
  unfold add_token. case_bool_decide as Hin.
  - split; [by left | intros [?| ->]; done].
  - rewrite elem_of_app, list_elem_of_singleton. done.
Qed.

Lemma elem_of_add_tokens cls tokens new :
  cls ∈ foldl add_token tokens new ↔ cls ∈ tokens ∨ cls ∈ new.
Proof.
  revert tokens. induction new as [|t new IH]; intros tokens; simpl.
  - rewrite elem_of_nil. tauto.
  - rewrite IH, elem_of_add_token, elem_of_cons. tauto.
Qed.

Lemma elem_of_remove_token cls tokens token :
  cls ∈ remove_token tokens token ↔ cls ∈ tokens ∧ cls ≠ token.
Proof. unfold remove_token. rewrite list_elem_of_filter. tauto. Qed.

Lemma set_elements_alter_insert f el e σ :
  set_elements (alter f el) (set_elements (insert el e) σ) =
  set_elements (insert el (f e)) σ.
Proof. unfold set_elements. simpl. by rewrite alter_insert_eq. Qed.

Lemma setProperty_run el name v els' σ :
  assigned (elements σ) el name v = Some els' →
  setProperty el name v σ = (Normal (), set_elements (λ _, els') σ).
Proof.
  unfold assigned, setProperty, set_innerHTML, set_contentEditable,
    modifyElement, modify.
  destruct (String.eqb name "innerHTML"); [by intros [= <-] |].
  destruct (String.eqb name "contentEditable").
  { case_bool_decide; [| done]. by intros [= <-]. }
  by intros [= <-].
Qed.

Lemma setProperties_run el attributes : ∀ els' σ,
  assignedAll (elements σ) el attributes = Some els' →
  forEach (λ '(attrName, v), setProperty el attrName v) attributes σ =
    (Normal (), set_elements (λ _, els') σ).
Proof.
  induction attributes as [|[name v] attributes IH]; intros els' σ.
  { intros [= <-]. by destruct σ. }
  cbn [assignedAll forEach].
  destruct (assigned (elements σ) el name v) as [els1|] eqn:He1; [| done].
  cbn [mbind option_bind]. intros He'.
  rewrite bind_run, (setProperty_run _ _ _ _ _ He1).
  by rewrite (IH els' (set_elements (λ _, els1) σ)).
Qed.

Lemma _make_run tagName classNames attributes els' σ :
  made (elements σ) tagName classNames attributes = Some els' →
  _make tagName classNames attributes σ =
    (Normal (fresh (dom (elements σ))), set_elements (λ _, els') σ).
Proof.
  unfold made, _make.
  destruct (forallb valid_token (classTokens classNames)) eqn:Hv; [| done].
  intros He. rewrite bind_run. unfold createElement at 1. cbv zeta.
  set (el := fresh (dom (elements σ))) in *.
  rewrite bind_run.
  assert (match classNames with
          | NoClassNames => mret ()
          | ClassArray names => classList_add el names
          | ClassName name =>
              if ToBoolean (JString name)
              then classList_add el [name] else mret ()
          end (set_elements (insert el (newElement tagName)) σ) =
          (Normal (),
           set_elements (insert el
             (with_classList
                (λ cl, foldl add_token cl (classTokens classNames))
                (newElement tagName))) σ)) as ->.
  { destruct classNames as [|names|name]; cbn [classTokens] in *.
    - reflexivity.
    - rewrite classList_add_run by done.
      by rewrite set_elements_alter_insert.
    - destruct (ToBoolean (JString name)); [| reflexivity].
      rewrite classList_add_run by done.
      by rewrite set_elements_alter_insert. }
  rewrite bind_run, (setProperties_run _ _ els') by done. reflexivity.
Qed.

Lemma bind_gets {A B} (f : State → A) (k : A → JS B) σ :
  (gets f ≫= k) σ = k (f σ) σ.
Proof. reflexivity. Qed.

Lemma bind_modify {B} (f : State → State) (k : () → JS B) σ :
  (modify f ≫= k) σ = k () (f σ).
Proof. reflexivity. Qed.

Lemma getContainer_run σ c :
  container (this σ) = Some c → getContainer σ = (Normal c, σ).
Proof. unfold getContainer. rewrite bind_gets. by intros ->. Qed.

Lemma descendantsUpTo_leaf depth els el :
  (∀ c, Child c ∉ childNodes (els !!! el)) →
  descendantsUpTo depth els el = [].
Proof.
  intros Hleaf. destruct depth as [|depth]; [done |]. simpl.
  induction (childNodes (els !!! el)) as [|n ns IH]; [done |].
  simpl. destruct n as [markup|c].
  - apply IH. intros c Hc. apply (Hleaf c). by right.
  - exfalso. apply (Hleaf c). by left.
Qed.

(** The elements below an element of a set that holds the children of
    its elements are elements of the set. *)
Lemma descendantsUpTo_within (S : loc → Prop) (els : gmap loc Element) :
  (∀ l x, S l → Child x ∈ childNodes (els !!! l) → S x) →
  ∀ depth l x, S l → x ∈ descendantsUpTo depth els l → S x.
Proof.
  intros Hclosed. induction depth as [|depth IH]; intros l x Hl Hx.
  { by apply elem_of_nil in Hx. }
  cbn [descendantsUpTo] in Hx.
  apply list_elem_of_In, in_flat_map in Hx as (n & Hn & Hx).
  apply list_elem_of_In in Hn. destruct n as [markup|c]; [done |].
  assert (S c) as Hc by (by eapply Hclosed).
  destruct Hx as [<- | Hx]; [done |].
  eapply IH; [exact Hc | by apply list_elem_of_In].
Qed.

Lemma appendChild_run parent child σ :
  parent ≠ child →
  parent ∉ descendants (elements σ) child →
  appendChild parent child σ =
    (Normal (),
     set_elements (λ els,
       alter (with_childNodes (λ ns, (ns ++ [Child child])%list)) parent
         (detached child els)) σ).
Proof.
  intros Hne Hbelow. unfold appendChild. rewrite bind_gets.
  rewrite bool_decide_eq_false_2; [done |].
  rewrite elem_of_cons. tauto.
Qed.

Lemma filter_other_child (child : loc) (ns : list Node) :
  Child child ∉ ns → filter (λ n, n ≠ Child child) ns = ns.
Proof.
  induction ns as [|n ns IH]; [done |].
  intros [Hn Hns]%not_elem_of_cons.
  rewrite filter_cons_True by done. f_equal. by apply IH.
Qed.

(** An element that does not hold [child] stays as it is when [child]
    leaves its parent. *)
Lemma detached_other child (els : gmap loc Element) l e :
  els !! l = Some e → Child child ∉ childNodes e →
  detached child els !! l = Some e.
Proof.
  intros Hl Hchild. unfold detached. rewrite lookup_fmap, Hl.
  cbn [fmap option_fmap option_map]. f_equal.
  destruct e. unfold with_childNodes. simpl in *.
  by rewrite filter_other_child.
Qed.

Lemma name_char_not_whitespace c :
  name_char c = true → ascii_whitespace c = false.
Proof. by destruct c as [[] [] [] [] [] [] [] []]. Qed.

Lemma class_name_token s : class_name s = true → valid_token s = true.
Proof.
  destruct s as [|c s]; [done |]. cbn [class_name].
  intros [Hc Hs]%andb_prop. unfold valid_token. cbn [String.eqb negb andb].
  apply negb_true_iff. cbn [has_whitespace]. apply orb_false_intro.
  - apply name_char_not_whitespace. unfold name_char. by rewrite Hc.
  - induction s as [|c' s IH]; [done |]. cbn in Hs |- *.
    apply andb_prop in Hs as [Hc' Hs]. apply orb_false_intro; [| by apply IH].
    by apply name_char_not_whitespace.
Qed.

End Runs.


Ltac js_simpl :=
  cbn [this elements records set_this set_elements set_records
       api defaultType messagePlaceholder data container readOnly
       with_container with_data].

(** ** Invariants of the calls *)

Section Hoare.
Context `{Host}.

Lemma hoare_conseq {A} (P P' : State → Prop) (Q Q' : A → State → Prop)
    (E E' : State → Prop) (m : JS A) :
  hoare P m Q E →
  (∀ σ, P' σ → P σ) → (∀ a σ, Q a σ → Q' a σ) → (∀ σ, E σ → E' σ) →
  hoare P' m Q' E'.
Proof.
  intros Hm HP HQ HE σ Hσ. specialize (Hm σ (HP σ Hσ)).
  destruct (m σ) as [[a|e] σ']; auto.
Qed.

Lemma hoare_bind {A B} (P : State → Prop) (Q : A → State → Prop)
    (R : B → State → Prop) (E : State → Prop) (m : JS A) (f : A → JS B) :
  hoare P m Q E → (∀ a, hoare (Q a) (f a) R E) → hoare P (m ≫= f) R E.
Proof.
  intros Hm Hf σ Hσ. rewrite bind_run. specialize (Hm σ Hσ).
  destruct (m σ) as [[a|e] σ']; [by apply Hf | done].
Qed.

Section Keeps.
Context (I : State → Prop).

Lemma keeps_ret {A} (a : A) : keeps I (mret a).
Proof. by intros σ. Qed.

Lemma keeps_throw {A} e : keeps I (@throw A e).
Proof. by intros σ. Qed.

Lemma keeps_gets {A} (f : State → A) : keeps I (gets f).
Proof. by intros σ. Qed.

Lemma keeps_bind {A B} (m : JS A) (f : A → JS B) :
  keeps I m → (∀ a, keeps I (f a)) → keeps I (m ≫= f).
Proof. intros Hm Hf. by eapply hoare_bind. Qed.

Lemma keeps_forEach {A} (f : A → JS unit) (array : list A) :
  (∀ x, keeps I (f x)) → keeps I (forEach f array).
Proof.
  intros Hf. induction array as [|x array IH]; [apply keeps_ret |].
  cbn [forEach]. by apply keeps_bind.
Qed.

Context `{!Stable I}.

Lemma keeps_createElement tag : keeps I (createElement tag).
Proof.
  intros σ Hσ. unfold createElement. apply stable_elements; [| done].
  intros els. rewrite dom_insert. set_solver.
Qed.

Lemma keeps_modifyElement el f : keeps I (modifyElement el f).
Proof.
  intros σ Hσ. unfold modifyElement, modify. apply stable_elements; [| done].
  intros els. by rewrite dom_alter.
Qed.

Lemma keeps_detach parent child :
  keeps I (modify (set_elements (λ els,
    alter (with_childNodes (λ ns, (ns ++ [Child child])%list)) parent
      (detached child els)))).
Proof.
  intros σ Hσ. unfold modify. apply stable_elements; [| done].
  intros els. unfold detached. by rewrite dom_alter, dom_fmap.
Qed.

Lemma keeps_newRecord d : keeps I (newRecord d).
Proof. intros σ Hσ. by apply stable_new. Qed.

Lemma keeps_retype (f : AlertData → AlertData) :
  keeps I (modify (λ σ, set_records (alter f (data (this σ))) σ)).
Proof. intros σ Hσ. by apply stable_alter. Qed.

Lemma createElement_allocates tag :
  hoare I (createElement tag) (λ el σ, I σ ∧ el ∈ dom (elements σ)) I.
Proof.
  intros σ Hσ. split; [by apply keeps_createElement |].
  simpl. rewrite dom_insert. set_solver.
Qed.

Lemma container_allocated c :
  hoare (λ σ, I σ ∧ c ∈ dom (elements σ))
    (modify (set_this (with_container (Some c)))) (λ _, I) I.
Proof. intros σ [Hσ Hc]. by apply stable_container. Qed.

End Keeps.

Global Instance Stable_and (I J : State → Prop) :
  Stable I → Stable J → Stable (λ σ, I σ ∧ J σ).
Proof.
  intros HI HJ. split.
  - intros f σ Hf [??]. split; by apply stable_elements.
  - intros f l σ [??]. split; by apply stable_alter.
  - intros d σ [??]. split; by apply stable_new.
  - intros c σ Hc [??]. split; by apply stable_container.
  - intros d σ [??]. split; by apply stable_data.
Qed.

Global Instance Stable_allocated (el : loc) :
  Stable (λ σ, el ∈ dom (elements σ)).
Proof. split; try done. intros f σ Hf Hel. by apply Hf. Qed.

Global Instance Stable_configuration v :
  Stable (λ σ, configuration (this σ) = v).
Proof. by split. Qed.

Global Instance Stable_wf_state : Stable wf_state.
Proof.
  split.
  - intros f σ Hf [Hd Hc]. split; [done |]. intros c Hcont. simpl.
    apply elem_of_dom, Hf, elem_of_dom. by apply Hc.
  - intros f l σ [Hd Hc]. split; [| done]. simpl.
    by apply lookup_alter_is_Some.
  - intros d σ [Hd Hc]. split; [| done]. simpl.
    apply lookup_insert_is_Some'. by right.
  - intros c σ Hel [Hd Hc]. split; [done |]. simpl.
    intros c' [= <-]. by apply elem_of_dom.
  - intros d σ [Hd Hc]. split; [| done]. simpl. rewrite lookup_insert_eq.
    by eexists.
Qed.

End Hoare.

Create HintDb keeps discriminated.

#[export] Hint Resolve keeps_ret keeps_throw keeps_gets keeps_createElement
  keeps_modifyElement keeps_detach keeps_newRecord keeps_retype : keeps.

(** Splits a computation along its binds, loops and branches. *)
Ltac keeps_step :=
  lazymatch goal with
  | |- keeps _ (_ ≫= _) => apply keeps_bind; [| intros ?]
  | |- keeps _ (forEach _ _) => apply keeps_forEach; intros ?
  | |- keeps _ (if ?b then _ else _) => destruct b
  | |- keeps _ (match ?x with _ => _ end) => destruct x
  | |- keeps _ _ => solve [auto with keeps typeclass_instances]
  end.

Ltac keeps_auto := repeat keeps_step.

Section KeepsAlert.
Context `{Host} (I : State → Prop) `{!Stable I}.

Lemma keeps_check_token token : keeps I (check_token token).
Proof. unfold check_token. keeps_auto. Qed.

Hint Resolve keeps_check_token : keeps.

Lemma keeps_classList_add el tokens : keeps I (classList_add el tokens).
Proof. unfold classList_add. keeps_auto. Qed.

Lemma keeps_classList_remove el tokens : keeps I (classList_remove el tokens).
Proof. unfold classList_remove. keeps_auto. Qed.

Lemma keeps_appendChild parent child : keeps I (appendChild parent child).
Proof. unfold appendChild. keeps_auto. Qed.

Lemma keeps_set_innerHTML el v : keeps I (set_innerHTML el v).
Proof.
  intros σ Hσ. unfold set_innerHTML, modify. apply stable_elements; [| done].
  intros els. rewrite dom_alter. apply insertMarkups_dom.
Qed.

Lemma keeps_setProperty el name v : keeps I (setProperty el name v).
Proof.
  unfold setProperty, set_contentEditable.
  destruct (String.eqb name "innerHTML"); [apply keeps_set_innerHTML |].
  keeps_auto.
Qed.

Lemma keeps_getContainer : keeps I getContainer.
Proof. unfold getContainer. keeps_auto. Qed.

Hint Resolve keeps_classList_add keeps_classList_remove keeps_appendChild
  keeps_setProperty keeps_getContainer : keeps.

End KeepsAlert.

#[export] Hint Resolve keeps_check_token keeps_classList_add
  keeps_classList_remove keeps_appendChild keeps_setProperty
  keeps_getContainer : keeps.

Section KeepsMethods.
Context `{Host} (I : State → Prop) `{!Stable I}.

(** [_make] keeps an invariant and returns an element of the document. *)
Lemma _make_allocates tagName classNames attributes :
  hoare I (_make tagName classNames attributes)
    (λ el σ, I σ ∧ el ∈ dom (elements σ)) I.
Proof.
  unfold _make. eapply hoare_bind; [apply createElement_allocates; done |].
  intros el.
  apply (hoare_conseq (λ σ, I σ ∧ el ∈ dom (elements σ)) _
           (λ el' σ, I σ ∧ el' ∈ dom (elements σ)) _
           (λ σ, I σ ∧ el ∈ dom (elements σ)) _); [| done | done | tauto].
  eapply hoare_bind with (Q := λ _ σ, I σ ∧ el ∈ dom (elements σ)).
  { change (keeps (λ σ, I σ ∧ el ∈ dom (elements σ))
              match classNames with
              | NoClassNames => mret ()
              | ClassArray names => classList_add el names
              | ClassName name =>
                  if ToBoolean (JString name)
                  then classList_add el [name] else mret ()
              end).
    keeps_auto. }
  intros _.
  eapply hoare_bind with (Q := λ _ σ, I σ ∧ el ∈ dom (elements σ)).
  { change (keeps (λ σ, I σ ∧ el ∈ dom (elements σ))
              (forEach (λ '(attrName, v), setProperty el attrName v)
                 attributes)).
    apply keeps_forEach. intros [name v].
    auto with keeps typeclass_instances. }
  intros _ σ Hσ. exact Hσ.
Qed.

Lemma keeps__make tagName classNames attributes :
  keeps I (_make tagName classNames attributes).
Proof.
  eapply hoare_conseq; [apply _make_allocates | done | | done].
  by intros el σ [Hσ _].
Qed.

Hint Resolve keeps__make : keeps.

Lemma keeps_render : keeps I render.
Proof.
  unfold render, getData. apply keeps_bind; [auto with keeps |].
  intros d. cbv zeta.
  eapply hoare_bind; [apply _make_allocates |]. intros c.
  eapply hoare_bind; [by apply container_allocated |]. intros [].
  change (keeps I
    (readOnly ← gets (λ σ, readOnly (this σ));
     d ← gets currentData;
     messageEl ← _make "div" (ClassArray [CSS_message])
                    [("contentEditable", js_not readOnly);
                     ("innerHTML", message d)];
     placeholder ← gets (λ σ, messagePlaceholder (this σ));
     set_dataset messageEl "placeholder" placeholder;;
     c ← getContainer;
     appendChild c messageEl;;
     getContainer)).
  unfold set_dataset. keeps_auto.
Qed.

Lemma keeps_renderSettings : keeps I renderSettings.
Proof. unfold renderSettings, getData, addEventListener. keeps_auto. Qed.

Lemma keeps__changeAlertType newType : keeps I (_changeAlertType newType).
Proof. unfold _changeAlertType. keeps_auto. Qed.

Hint Resolve keeps__changeAlertType : keeps.

Lemma keeps_runListener l : keeps I (runListener l).
Proof. unfold runListener, querySelectorAll. keeps_auto. Qed.

Hint Resolve keeps_runListener : keeps.

Lemma keeps_click target : keeps I (click target).
Proof. unfold click, getElement. keeps_auto. Qed.

Lemma keeps_save alertElement : keeps I (save alertElement).
Proof.
  unfold save, querySelector, querySelectorAll, getData, get_innerHTML.
  keeps_auto.
Qed.

Lemma keeps_onPaste event : keeps I (onPaste event).
Proof.
  intros σ Hσ. unfold onPaste, get_innerHTML.
  destruct (detail_data event); by apply stable_data.
Qed.

Hint Resolve keeps_render keeps_renderSettings keeps_click keeps_save
  keeps_onPaste : keeps.

Lemma keeps_call c : keeps I (call c).
Proof. destruct c; cbn [call]; keeps_auto. Qed.

(** Whatever the editor calls, and however the calls complete, an
    invariant stays. *)
Lemma calls_keep cs : ∀ σ, I σ → I (calls cs σ).
Proof.
  induction cs as [|c cs IH]; intros σ Hσ; [done |].
  cbn [calls]. apply IH. pose proof (keeps_call c σ Hσ) as Hc.
  by destruct (call c σ) as [[[]|e] σ'].
Qed.

End KeepsMethods.

Section Constructed.
Context `{Host}.

(** The fields the constructor assigned from its arguments stay. *)
Lemma constructed_configuration args cs σ :
  configuration (this (calls cs (constructor args σ).2)) =
    (arg_api args,
     js_or (config_defaultType (arg_config args)) (JString DEFAULT_TYPE),
     js_or (config_messagePlaceholder (arg_config args))
       (JString DEFAULT_MESSAGE_PLACEHOLDER),
     arg_readOnly args).
Proof. by apply (calls_keep (λ σ', configuration (this σ') = _)). Qed.

(** The references of a constructed instance point into the store. *)
Lemma constructed_wf args cs σ : wf_state (calls cs (constructor args σ).2).
Proof.
  apply (calls_keep wf_state). rewrite constructor_run. split; [| done].
  simpl. rewrite lookup_insert_eq. by eexists.
Qed.

End Constructed.

(** ** [render] *)

Section Render.
Context `{Host}.

Lemma made_container els cls :
  valid_token cls = true →
  made els "div" (ClassArray [CSS_wrapper; cls]) [] =
    Some (<[fresh (dom els) :=
              with_classList (λ cl, foldl add_token cl [CSS_wrapper; cls])
                (newElement "div")]> els).
Proof. intros Hv. unfold made. cbn [classTokens forallb]. by rewrite Hv. Qed.

Lemma made_message els ro msg :
  made els "div" (ClassArray [CSS_message])
    [("contentEditable", js_not ro); ("innerHTML", msg)] =
    Some
      (alter
         (with_childNodes (λ _,
            (insertMarkups (assignedMarkup msg)
               (<[fresh (dom els) :=
                    with_contentEditable
                      (if ToBoolean ro then "false" else "true")
                      (with_classList (λ cl, foldl add_token cl [CSS_message])
                         (newElement "div"))]> els)).1))
         (fresh (dom els))
         (insertMarkups (assignedMarkup msg)
            (<[fresh (dom els) :=
                 with_contentEditable
                   (if ToBoolean ro then "false" else "true")
                   (with_classList (λ cl, foldl add_token cl [CSS_message])
                      (newElement "div"))]> els)).2).
Proof.
  unfold made, js_not. cbn [classTokens forallb assignedAll].
  change (valid_token CSS_message && true) with true. cbv iota.
  unfold assigned at 2. cbn [String.eqb Ascii.eqb Bool.eqb]. cbv iota.
  destruct (ToBoolean ro); cbn [negb ToString string_lower ascii_lower];
    rewrite bool_decide_eq_true_2 by (rewrite !elem_of_cons; tauto);
    cbn [mbind option_bind]; by rewrite alter_insert_eq.
Qed.

(** The document once [render] has inserted the nodes parsed from the
    message: [base] holds the new container [c] and the new message
    element [m], and [inserted] the nodes and the document after them. *)
Lemma render_run σ :
  valid_token (CSS_wrapperForType (type (currentData σ))) = true →
  ∃ c m base,
    (c ∉ dom (elements σ)) ∧ (m ∉ dom (elements σ)) ∧ c ≠ m ∧
    base =
      <[m := with_contentEditable
               (if ToBoolean (readOnly (this σ)) then "false" else "true")
               (with_classList (λ cl, foldl add_token cl [CSS_message])
                  (newElement "div"))]>
        (<[c := with_classList
                  (λ cl, foldl add_token cl
                     [CSS_wrapper;
                      CSS_wrapperForType (type (currentData σ))])
                  (newElement "div")]> (elements σ)) ∧
    let inserted :=
      insertMarkups (assignedMarkup (message (currentData σ))) base in
    render σ =
      (Normal c,
       {| this := with_container (Some c) (this σ);
          elements :=
            alter (with_childNodes (λ ns, (ns ++ [Child m])%list)) c
              (detached m
                 (alter
                    (with_dataset
                       (insert "placeholder"
                          (ToString (messagePlaceholder (this σ))))) m
                    (alter (with_childNodes (λ _, inserted.1)) m
                       inserted.2)));
          records := records σ |}).
Proof.
  intros Hv. unfold render, getData, set_dataset, modifyElement.
  rewrite bind_gets, bind_run, (_make_run _ _ _ _ _ (made_container _ _ Hv)).
  set (c := fresh (dom (elements σ))).
  set (Ec := with_classList (λ cl, foldl add_token cl [CSS_wrapper; _]) _).
  rewrite bind_modify, bind_gets, bind_gets. js_simpl.
  rewrite bind_run, (_make_run _ _ _ _ _ (made_message _ _ _)).
  js_simpl. set (els1 := <[c:=Ec]> (elements σ)).
  set (m := fresh (dom els1)). set (Em := with_contentEditable _ _).
  set (base := <[m:=Em]> els1).
  set (ins := insertMarkups _ base).
  assert (c ∉ dom (elements σ)) as Hc by apply is_fresh.
  assert (m ∉ dom els1) as Hm by apply is_fresh.
  pose proof Hm as Hm'. unfold els1 in Hm'.
  rewrite dom_insert_L, not_elem_of_union, not_elem_of_singleton in Hm'.
  destruct Hm' as [Hmc Hm'].
  exists c, m, base. split_and!; [done | done | done | done |].
  cbv zeta. fold ins.
  rewrite bind_gets, bind_modify. js_simpl.
  rewrite bind_run, (getContainer_run _ c) by done.
  rewrite bind_run, appendChild_run; [| done |].
  { by rewrite (getContainer_run _ c). }
  js_simpl. unfold descendants.
  set (els3 := alter _ m (alter _ m ins.2)).
  destruct (insertMarkups_extends
              (assignedMarkup (message (currentData σ))) base)
    as [(Hframe & Hnew & _) Hnodes]. fold ins in Hframe, Hnew, Hnodes.
  assert (∀ l, l ∈ dom els1 → l ∈ dom base) as Hsub.
  { intros l Hl. unfold base. rewrite dom_insert_L. by apply elem_of_union_r. }
  intros Hin.
  apply (descendantsUpTo_within (λ l, l ∉ dom els1) els3) in Hin.
  - apply Hin. unfold els1. rewrite dom_insert_L.
    apply elem_of_union_l. by apply elem_of_singleton.
  - intros l x Hl. rewrite lookup_total_alt. unfold els3.
    destruct (decide (m = l)) as [<- | Hne].
    + rewrite !lookup_alter_eq, Hframe; last first.
      { unfold base. rewrite dom_insert_L. apply elem_of_union_l.
        by apply elem_of_singleton. }
      unfold base. rewrite lookup_insert_eq. simpl.
      intros Hx Hx'. by apply (Hnodes x Hx), Hsub.
    + rewrite !lookup_alter_ne by done.
      destruct (ins.2 !! l) as [e|] eqn:Hl'; simpl.
      * intros Hx Hx'. destruct (Hnew l e Hl') as [_ Hkids].
        { unfold base. rewrite dom_insert_L, not_elem_of_union,
            not_elem_of_singleton. split; [by intros -> | done]. }
        by apply (Hkids x Hx), Hsub.
      * intros Hx. by apply elem_of_nil in Hx.
  - done.
Qed.

End Render.
(** ** [save] *)

Section Save.
Context `{Host}.

Lemma querySelectorAll_run el cls σ :
  class_name cls = true →
  querySelectorAll el cls σ =
    (Normal (List.filter (λ d, hasClass (elements σ) d cls)
               (descendants (elements σ) el)), σ).
Proof. intros Hcls. unfold querySelectorAll. by rewrite Hcls. Qed.

Lemma querySelector_run el cls σ :
  class_name cls = true →
  querySelector el cls σ = (Normal (firstWithClass (elements σ) el cls), σ).
Proof.
  intros Hcls. unfold querySelector.
  by rewrite bind_run, querySelectorAll_run.
Qed.

Lemma save_run el σ :
  save el σ =
    match firstWithClass (elements σ) el CSS_message with
    | None => (Throw TypeError, σ)
    | Some d =>
        (Normal (fresh (dom (records σ))),
         set_records
           (insert (fresh (dom (records σ)))
              {| type := type (currentData σ);
                 message := JString (innerHTML (elements σ) d) |}) σ)
    end.
Proof.
  unfold save. rewrite bind_run, querySelector_run by done.
  unfold getData. rewrite bind_gets.
  by destruct (firstWithClass _ _ _).
Qed.

(** [querySelector] returns the first match in tree order, and [null]
    only when no descendant matches. *)
Lemma head_filter_Some {A} (f : A → bool) (l : list A) d :
  head (List.filter f l) = Some d ↔
  ∃ pre post, l = (pre ++ d :: post)%list ∧ f d = true
              ∧ Forall (λ x, f x = false) pre.
Proof.
  induction l as [|x l IH]; simpl.
  - split; [done |]. intros (pre & post & Hl & _). by destruct pre.
  - destruct (f x) eqn:Hx; simpl.
    + split.
      * intros [= ->]. by exists [], l.
      * intros (pre & post & Hl & Hd & Hpre). destruct pre as [|y pre].
        { by injection Hl as -> _. }
        injection Hl as -> _. apply Forall_cons in Hpre as [Hy _]. congruence.
    + rewrite IH. split.
      * intros (pre & post & -> & Hd & Hpre). exists (x :: pre), post.
        split_and!; [done | done |]. by constructor.
      * intros (pre & post & Hl & Hd & Hpre). destruct pre as [|y pre].
        { injection Hl as -> _. congruence. }
        injection Hl as -> ->. apply Forall_cons in Hpre as [_ Hpre].
        by exists pre, post.
Qed.

Lemma firstWithClass_is_Some els el cls :
  (∃ d, d ∈ descendants els el ∧ hasClass els d cls = true) →
  is_Some (firstWithClass els el cls).
Proof.
  intros (d & Hd & Hcls). unfold firstWithClass.
  destruct (List.filter _ _) as [|x l] eqn:Hf; [| by eexists].
  assert (In d (List.filter (λ d, hasClass els d cls) (descendants els el)))
    as Hin by (apply filter_In; split; [by apply list_elem_of_In | done]).
  rewrite Hf in Hin. destruct Hin.
Qed.

(** The message element is what [querySelector] finds in a container
    whose first child it is. *)
Lemma firstWithClass_first_child els c m Ec Em rest cls :
  els !! c = Some Ec → childNodes Ec = Child m :: rest →
  els !! m = Some Em → cls ∈ classList Em →
  firstWithClass els c cls = Some m.
Proof.
  intros Hc Hkids Hm Hcls. unfold firstWithClass, descendants.
  destruct (size els) as [|n] eqn:Hsize.
  { by apply map_size_ne_0_lookup_2 with (i := c) in Hsize. }
  cbn [descendantsUpTo]. rewrite (lookup_total_correct _ _ _ Hc), Hkids.
  cbn [flat_map app List.filter]. unfold hasClass at 1.
  rewrite (lookup_total_correct _ _ _ Hm), bool_decide_eq_true_2 by done.
  reflexivity.
Qed.

End Save.

(** ** Rendering and saving *)

Section RenderSave.
Context `{Host}.

Lemma supported_class_token v :
  supported v → valid_token (CSS_wrapperForType v) = true.
Proof.
  intros (s & -> & Hs). unfold ALERT_TYPES in Hs.
  repeat (apply elem_of_cons in Hs as [-> | Hs]; [reflexivity |]).
  by apply elem_of_nil in Hs.
Qed.

(** The type class of a constructed instance is a valid token as soon as
    that of its default type is. *)
Lemma constructor_class_token args σ :
  valid_token
    (CSS_wrapperForType
       (js_or (config_defaultType (arg_config args)) (JString DEFAULT_TYPE)))
    = true →
  valid_token
    (CSS_wrapperForType (type (currentData (constructor args σ).2))) = true.
Proof.
  intros Hv. rewrite constructor_data. cbn [type].
  destruct (includes _ _) eqn:Hin; [| done].
  by apply supported_class_token, includes_supported.
Qed.

(** C5: [save(element)] returns a record whose message is the
    [innerHTML] of the descendant of [element] with the message class,
    the first one in tree order, and whose type is the current type of
    the instance. *)
Theorem save_serializes σ el :
  (∃ d, d ∈ descendants (elements σ) el
        ∧ hasClass (elements σ) d CSS_message = true) →
  ∃ d r σ' before after,
    descendants (elements σ) el = (before ++ d :: after)%list ∧
    hasClass (elements σ) d CSS_message = true ∧
    Forall (λ x, hasClass (elements σ) x CSS_message = false) before ∧
    save el σ = (Normal r, σ') ∧
    elements σ' = elements σ ∧
    records σ' !! r =
      Some {| type := type (currentData σ);
              message := JString (innerHTML (elements σ) d) |}.
Proof.
  intros Hex. apply firstWithClass_is_Some in Hex as [d Hd].
  pose proof Hd as Hfirst. unfold firstWithClass in Hfirst.
  apply head_filter_Some in Hfirst as (before & after & Hds & Hcls & Hbefore).
  exists d. rewrite save_run, Hd. eexists _, _, before, after.
  split_and!; try done. simpl. apply lookup_insert_eq.
Qed.

(** [save] changes neither the fields of the instance nor the document
    nor any record that existed, and what it returns is a new record. *)
Lemma save_keeps_store σ el :
  is_Some (records σ !! data (this σ)) →
  match save el σ with
  | (Normal r, σ') =>
      (r ∉ dom (records σ)) ∧ r ≠ data (this σ) ∧
      this σ' = this σ ∧ elements σ' = elements σ ∧
      (∀ l, l ≠ r → records σ' !! l = records σ !! l) ∧
      type (currentData σ') = type (currentData σ) ∧
      message (currentData σ') = message (currentData σ)
  | (Throw _, σ') => σ' = σ
  end.
Proof.
  intros Hdata. rewrite save_run.
  destruct (firstWithClass _ _ _) as [d|]; [| done].
  set (r := fresh (dom (records σ))).
  assert (r ∉ dom (records σ)) as Hr by apply is_fresh.
  assert (r ≠ data (this σ)) as Hne.
  { intros Heq. apply Hr. rewrite Heq. by apply elem_of_dom. }
  assert (currentData (set_records (insert r
            {| type := type (currentData σ);
               message := JString (innerHTML (elements σ) d) |}) σ)
          = currentData σ) as Hcur.
  { unfold currentData. simpl. by rewrite lookup_total_insert_ne. }
  split_and!; try done.
  - intros l Hl. simpl. by rewrite lookup_insert_ne.
  - by rewrite Hcur.
  - by rewrite Hcur.
Qed.

(** C9: at any time after the construction, [save] does not mutate the
    instance: it returns a new record, the fields of the instance, the
    document and the records that existed are as before, and so are the
    type and the message of the instance's data; when it throws, nothing
    has changed. *)
Theorem save_frame args cs σ0 el :
  let σ := calls cs (constructor args σ0).2 in
  match save el σ with
  | (Normal r, σ') =>
      (r ∉ dom (records σ)) ∧ r ≠ data (this σ) ∧
      this σ' = this σ ∧ elements σ' = elements σ ∧
      (∀ l, l ≠ r → records σ' !! l = records σ !! l) ∧
      type (currentData σ') = type (currentData σ) ∧
      message (currentData σ') = message (currentData σ)
  | (Throw _, σ') => σ' = σ
  end.
Proof.
  intros σ. apply save_keeps_store.
  by destruct (constructed_wf args cs σ0) as [Hdata _].
Qed.

(** The state [render] leaves, read at the container, at the message
    element and at the elements that were there. *)
Lemma render_spec σ :
  valid_token (CSS_wrapperForType (type (currentData σ))) = true →
  ∃ c m kids σ',
    render σ = (Normal c, σ') ∧
    (c ∉ dom (elements σ)) ∧ (m ∉ dom (elements σ)) ∧ c ≠ m ∧
    this σ' = with_container (Some c) (this σ) ∧
    records σ' = records σ ∧
    elements σ' !! c = Some (renderedContainer (currentData σ) m) ∧
    elements σ' !! m
      = Some (renderedMessage (this σ) (currentData σ) kids) ∧
    firstWithClass (elements σ') c CSS_message = Some m ∧
    innerHTML (elements σ') m = readBack (message (currentData σ)) ∧
    (∀ x, Child x ∈ kids →
       (x ∉ dom (elements σ)) ∧ x ≠ c ∧ x ≠ m ∧ x ∈ dom (elements σ')) ∧
    (∀ l, l ∈ dom (elements σ) → l ∈ dom (elements σ')) ∧
    (∀ l e, elements σ !! l = Some e → closed (elements σ) e →
       elements σ' !! l = Some e) ∧
    length kids = length (assignedMarkup (message (currentData σ))) ∧
    (∀ l e, elements σ' !! l = Some e → l ∉ dom (elements σ) →
       closed (elements σ') e) ∧
    (∀ els'',
       (∀ l, l ∈ dom (elements σ') → l ∉ dom (elements σ) → l ≠ c →
             els'' !! l = elements σ' !! l) →
       (size (elements σ') ≤ size els'')%nat →
       innerHTML els'' m = readBack (message (currentData σ))).
Proof.
  intros Hv.
  destruct (render_run σ Hv) as (c & m & base & Hc & Hm & Hcm & Hbase & Hrun).
  cbv zeta in Hrun.
  set (ts := assignedMarkup (message (currentData σ))) in *.
  destruct (insertMarkups_extends ts base) as [He Hnodes].
  pose proof He as (Hframe & Hnew & Hsize).
  set (ins := insertMarkups ts base) in *.
  assert (∀ l, l ∈ dom base ↔ l = m ∨ l = c ∨ l ∈ dom (elements σ)) as Hdom.
  { intros l. rewrite Hbase, !dom_insert_L, !elem_of_union,
      !elem_of_singleton. done. }
  assert (base !! c =
            Some (with_classList
                    (λ cl, foldl add_token cl
                       [CSS_wrapper;
                        CSS_wrapperForType (type (currentData σ))])
                    (newElement "div"))) as Hbc.
  { rewrite Hbase, lookup_insert_ne by done. apply lookup_insert_eq. }
  assert (base !! m =
            Some (with_contentEditable
                    (if ToBoolean (readOnly (this σ)) then "false" else "true")
                    (with_classList (λ cl, foldl add_token cl [CSS_message])
                       (newElement "div")))) as Hbm.
  { rewrite Hbase. apply lookup_insert_eq. }
  assert (Child m ∉ ins.1) as Hkids.
  { intros Hin. apply (Hnodes m Hin), Hdom. by left. }
  exists c, m, ins.1. eexists. split; [exact Hrun |]. js_simpl.
  set (F := alter _ c _).
  assert (F !! c = Some (renderedContainer (currentData σ) m)) as HFc.
  { unfold F, detached. rewrite lookup_alter_eq, lookup_fmap.
    rewrite !lookup_alter_ne by done.
    rewrite Hframe, Hbc by (apply Hdom; tauto). reflexivity. }
  assert (F !! m = Some (renderedMessage (this σ) (currentData σ) ins.1))
    as HFm.
  { unfold F, detached. rewrite lookup_alter_ne, lookup_fmap by done.
    rewrite !lookup_alter_eq, Hframe, Hbm by (apply Hdom; tauto).
    cbn [fmap option_fmap option_map]. f_equal.
    unfold renderedMessage, with_childNodes, with_dataset. simpl.
    by rewrite filter_other_child. }
  assert (∀ l e, ins.2 !! l = Some e → l ≠ c → l ≠ m →
            Child m ∉ childNodes e → F !! l = Some e) as Hother.
  { intros l e Hl Hlc Hlm Hchild. unfold F.
    rewrite lookup_alter_ne by done. apply detached_other; [| done].
    by rewrite !lookup_alter_ne. }
  assert (dom F = dom ins.2) as HdomF.
  { unfold F, detached. by rewrite dom_alter_L, dom_fmap_L, !dom_alter_L. }
  assert (∀ els'',
            (∀ l, l ∈ dom F → l ∉ dom (elements σ) → l ≠ c →
                  els'' !! l = F !! l) →
            (size F ≤ size els'')%nat →
            innerHTML els'' m = readBack (message (currentData σ)))
    as Hstable.
  { intros els'' Hagree Hsize''. unfold readBack. fold ts.
    apply (innerHTML_inserted ts base).
    - intros l Hl1 Hl2. fold ins in Hl2 |- *.
      assert (l ≠ c) by (intros ->; apply Hl1, Hdom; tauto).
      assert (l ≠ m) by (intros ->; apply Hl1, Hdom; tauto).
      rewrite Hagree; [| by rewrite HdomF | | done].
      + apply elem_of_dom in Hl2 as [e He'].
        rewrite He'. apply Hother; [done | done | done |].
        intros Hin. destruct (Hnew l e He' Hl1) as [_ Hk].
        apply (Hk m Hin), Hdom. by left.
      + intros Hin. apply Hl1, Hdom. tauto.
    - rewrite lookup_total_alt, Hagree, HFm; [done | | done | done].
      apply elem_of_dom. by eexists.
    - fold ins. by rewrite <- (size_dom ins.2), <- HdomF, size_dom.
    - intros Hempty. apply map_size_empty_inv in Hempty.
      by rewrite Hempty in Hbm. }
  split_and!; try done.
  - eapply firstWithClass_first_child;
      [exact HFc | reflexivity | exact HFm |].
    simpl. apply list_elem_of_singleton. reflexivity.
  - by apply Hstable.
  - intros x Hx. destruct (Hnodes x Hx) as [Hx1 Hx2].
    rewrite Hdom in Hx1. split_and!; [tauto | | |].
    + intros ->. tauto.
    + intros ->. tauto.
    + by rewrite HdomF.
  - intros l Hl. rewrite HdomF. eapply extends_dom; [exact He |].
    apply Hdom. tauto.
  - intros l e Hl Hclosed.
    assert (l ∈ dom (elements σ)) as Hin by (by apply elem_of_dom).
    apply Hother.
    + rewrite Hframe by (apply Hdom; tauto).
      rewrite Hbase, !lookup_insert_ne; [done | |]; by intros <-.
    + by intros ->.
    + by intros ->.
    + intros Hchild. by apply Hm, Hclosed.
  - apply insertMarkups_length.
  - intros l e Hl Hfresh x Hx. rewrite HdomF.
    destruct (decide (l = c)) as [-> | Hlc].
    { rewrite HFc in Hl. injection Hl as <-.
      apply list_elem_of_singleton in Hx. injection Hx as ->.
      eapply extends_dom; [exact He |]. apply Hdom. tauto. }
    destruct (decide (l = m)) as [-> | Hlm].
    { rewrite HFm in Hl. injection Hl as <-. by apply Hnodes. }
    assert (l ∉ dom base) as Hnin by (rewrite Hdom; tauto).
    assert (is_Some (ins.2 !! l)) as [e0 He0].
    { apply elem_of_dom. rewrite <- HdomF. by apply elem_of_dom. }
    destruct (Hnew l e0 He0 Hnin) as [_ Hk].
    rewrite (Hother l e0) in Hl; [| done | done | done |].
    + injection Hl as <-. by apply Hk.
    + intros Hchild. apply (Hk m Hchild), Hdom. by left.
Qed.

(** A record with a supported type and a string message goes through
    the constructor, [render] and [save] with its type, and with its
    message as the browser reads it back from [innerHTML]. *)
Lemma render_save_run σ ty msg config a ro :
  ty ∈ ALERT_TYPES →
  ∃ c r σ',
    (constructor {| arg_data := {| type := JString ty;
                                   message := JString msg |};
                    arg_config := config; arg_api := a;
                    arg_readOnly := ro |};;
     c ← render; r ← save c; mret (c, r)) σ = (Normal (c, r), σ') ∧
    records σ' !! r =
      Some {| type := JString ty;
              message := JString (readBack (JString msg)) |}.
Proof.
  intros Hty.
  set (args := {| arg_data := _ |}).
  assert (supported (JString ty)) as Hs by (by exists ty).
  pose proof (constructor_data args σ) as Hdata.
  rewrite bind_run. destruct (constructor args σ) as [r0 σ0] eqn:Hc.
  rewrite constructor_run in Hc. injection Hc as <- Hσ0.
  cbn [snd] in Hdata.
  assert (currentData σ0 = {| type := JString ty; message := JString msg |})
    as Hcur.
  { rewrite Hdata. subst args. cbn [arg_data type message].
    apply includes_supported in Hs. rewrite Hs.
    unfold js_or. cbn [ToBoolean].
    destruct (String.eqb msg "") eqn:Hempty; [| done].
    apply String.eqb_eq in Hempty. by subst msg. }
  destruct (render_spec σ0) as
    (c & m & kids & σ1 & Hrun & _ & _ & _ & Hthis & Hrec & _ & _ & Hq
     & Hhtml & _).
  { rewrite Hcur. by apply supported_class_token. }
  rewrite bind_run, Hrun. cbv beta iota.
  rewrite bind_run, save_run, Hq. cbv beta iota.
  assert (currentData σ1 = currentData σ0) as Hsame.
  { unfold currentData. by rewrite Hthis, Hrec. }
  eexists c, _, _. split; [reflexivity |].
  simpl. by rewrite lookup_insert_eq, Hhtml, Hsame, Hcur.
Qed.

(** C2, amended: a valid record goes through the constructor, [render]
    and [save] with its type, and with its message as the browser
    serialises the nodes it parsed from it; the record [save] returns is
    the record the block was built from exactly when the message is that
    serialisation already. *)
Theorem render_save_roundtrip σ d config a ro :
  valid_record d →
  ∃ c r σ',
    (constructor {| arg_data := d; arg_config := config; arg_api := a;
                    arg_readOnly := ro |};;
     c ← render; r ← save c; mret (c, r)) σ = (Normal (c, r), σ') ∧
    type (records σ' !!! r) = type d ∧
    message (records σ' !!! r) = JString (readBack (message d)) ∧
    (records σ' !! r = Some d ↔ message d = JString (readBack (message d))).
Proof.
  intros (ty & msg & -> & Hty).
  destruct (render_save_run σ ty msg config a ro Hty)
    as (c & r & σ' & Hrun & Hr).
  exists c, r, σ'. rewrite Hr, (lookup_total_correct _ _ _ Hr).
  cbn [type message]. split_and!; [done | done | done |].
  split; intros Heq; congruence.
Qed.


End RenderSave.

(** ** [onPaste] and the conversion functions *)

Section Paste.
Context `{Host}.

Lemma onPaste_run event σ :
  onPaste event σ =
    (Normal (),
     {| this := with_data (fresh (dom (records σ))) (this σ);
        elements := elements σ;
        records :=
          <[fresh (dom (records σ)) :=
              {| type := defaultType (this σ);
                 message :=
                   js_or (pastedHTML (elements σ) (detail_data event))
                     (JString "") |}]> (records σ) |}).
Proof. unfold onPaste. by destruct (detail_data event). Qed.

Lemma onPaste_data event σ :
  currentData (onPaste event σ).2 =
    {| type := defaultType (this σ);
       message :=
         js_or (pastedHTML (elements σ) (detail_data event)) (JString "") |}.
Proof.
  rewrite onPaste_run. unfold currentData. simpl.
  apply lookup_total_insert_eq.
Qed.

(** C6: at any time after the construction, [onPaste] replaces the data
    of the instance by a new record: its type is the default type of the
    instance, that is [config.defaultType] or, without one, ['info']; its
    message is the [innerHTML] of the pasted element, or the empty string
    when that is missing or empty. *)
Theorem onPaste_resets args cs σ0 event :
  let σ := calls cs (constructor args σ0).2 in
  let configured := config_defaultType (arg_config args) in
  let html := pastedHTML (elements σ) (detail_data event) in
  ∃ σ',
    onPaste event σ = (Normal (), σ') ∧
    (data (this σ') ∉ dom (records σ)) ∧
    type (currentData σ') = defaultType (this σ) ∧
    (ToBoolean configured = true → type (currentData σ') = configured) ∧
    (ToBoolean configured = false → type (currentData σ') = JString "info") ∧
    (ToBoolean html = true → message (currentData σ') = html) ∧
    (html = JUndefined ∨ html = JString "" →
       message (currentData σ') = JString "") ∧
    (∀ el, detail_data event = PastedElement el →
       message (currentData σ') = JString (innerHTML (elements σ) el)).
Proof.
  intros σ configured html.
  assert (defaultType (this σ) = js_or configured (JString "info")) as Hdt.
  { pose proof (constructed_configuration args cs σ0) as Hs. fold σ in Hs.
    by injection Hs. }
  eexists. split; [apply onPaste_run |].
  pose proof (onPaste_data event σ) as Hd. rewrite onPaste_run in Hd.
  cbn [snd] in Hd. rewrite Hd. cbn [type message this data with_data].
  fold html. rewrite Hdt. unfold js_or. split_and!.
  - apply is_fresh.
  - done.
  - by intros ->.
  - by intros ->.
  - by intros ->.
  - by intros [-> | ->].
  - intros el Hel. subst html. rewrite Hel. cbn [pastedHTML ToBoolean].
    by destruct (innerHTML (elements σ) el).
Qed.

(** C8: exporting what [import] built gives the string back, and
    [import] always sets the static default type ['info'], where
    [onPaste] sets the default type configured for the instance. *)
Theorem conversion_roundtrip (s : string) :
  conversionConfig_export (conversionConfig_import s) = JString s ∧
  type (conversionConfig_import s) = JString "info" ∧
  ∃ args event,
    type (currentData ((constructor args;; onPaste event) initial).2)
      = config_defaultType (arg_config args) ∧
    type (currentData ((constructor args;; onPaste event) initial).2)
      ≠ type (conversionConfig_import s).
Proof.
  split_and!; [done | done |].
  exists {| arg_data := {| type := JUndefined; message := JUndefined |};
            arg_config := {| config_defaultType := JString "warnung";
                             config_messagePlaceholder := JUndefined |};
            arg_api := editorApi; arg_readOnly := JBool false |},
         {| detail_data := PastedOther (JString s) |}.
  rewrite bind_run, constructor_run. cbv beta iota.
  rewrite onPaste_data. by split.
Qed.

End Paste.

(** ** [renderSettings] *)

Section Settings.
Context `{Host}.

Lemma wf_api_tokens a :
  wf_api a →
  valid_token (styles_settingsButton a) = true ∧
  valid_token (styles_settingsButtonActive a) = true.
Proof. intros (Hb & Ha & _). split; by apply class_name_token. Qed.

Lemma type_class_token ty :
  ty ∈ ALERT_TYPES → valid_token (CSS_wrapperForType (JString ty)) = true.
Proof. intros Hty. apply supported_class_token. by exists ty. Qed.

Lemma made_button els a ty :
  valid_token (CSS_settingsButton a) = true → ty ∈ ALERT_TYPES →
  made els "div"
    (ClassArray [CSS_settingsButton a; CSS_wrapper;
                 CSS_wrapperForType (JString ty)])
    [("innerHTML", JString "A")] =
    Some (<[fresh (dom els) :=
              with_childNodes (λ _, [Text "A"])
                (with_classList
                   (λ cl, foldl add_token cl
                      [CSS_settingsButton a; CSS_wrapper;
                       CSS_wrapperForType (JString ty)])
                   (newElement "div"))]> els).
Proof.
  intros Hb Hty%type_class_token. unfold made.
  cbn [classTokens forallb]. rewrite Hb, Hty.
  change (valid_token CSS_wrapper && (true && true)) with true.
  cbn [andb assignedAll]. unfold assigned, assignedMarkup.
  cbn [String.eqb Ascii.eqb Bool.eqb ToString]. cbv iota.
  rewrite (parseHTML_text "A") by reflexivity.
  cbn [insertMarkups insertMarkup fst snd mbind option_bind].
  by rewrite alter_insert_eq.
Qed.

(** One round of the loop of [renderSettings]. *)
Lemma settingsButton_run a els rs sc ty :
  valid_token (CSS_settingsButton a) = true →
  valid_token (CSS_settingsButtonActive a) = true →
  ty ∈ ALERT_TYPES → sc ∈ dom els →
  (a ← gets this;
   settingsButton ← _make "div"
       (ClassArray [CSS_settingsButton a; CSS_wrapper;
                    CSS_wrapperForType (JString ty)])
       [("innerHTML", JString "A")];
   d ← getData;
   (if strict_eq_string (type d) ty
    then classList_add settingsButton [CSS_settingsButtonActive a]
    else mret ());;
   addEventListener settingsButton "click" (SelectType ty sc settingsButton);;
   appendChild sc settingsButton)
    {| this := a; elements := els; records := rs |} =
  (Normal (),
   {| this := a;
      elements := addButton a (rs !!! data a) sc els ty;
      records := rs |}).
Proof.
  intros Hsb Hactive Hty Hsc.
  rewrite bind_gets. js_simpl.
  rewrite bind_run, (_make_run _ _ _ _ _ (made_button _ _ _ Hsb Hty)).
  unfold set_elements at 1. js_simpl. set (b := fresh (dom els)).
  assert (b ∉ dom els) as Hb by apply is_fresh.
  assert (sc ≠ b) as Hne by (by intros ->).
  unfold getData. rewrite bind_gets. unfold currentData. js_simpl.
  set (d := rs !!! data a).
  rewrite bind_run.
  assert ((if strict_eq_string (type d) ty
           then classList_add b [CSS_settingsButtonActive a]
           else mret ())
            {| this := a;
               elements :=
                 <[b := with_childNodes (λ _, [Text "A"])
                          (with_classList
                             (λ cl, foldl add_token cl
                                [CSS_settingsButton a; CSS_wrapper;
                                 CSS_wrapperForType (JString ty)])
                             (newElement "div"))]> els;
               records := rs |} =
          (Normal (),
           {| this := a;
              elements :=
                <[b := with_listeners (λ _, [])
                         (settingsButtonElement a d ty sc b)]> els;
              records := rs |})) as ->.
  { unfold settingsButtonElement.
    destruct (strict_eq_string (type d) ty); [| reflexivity].
    rewrite classList_add_run.
    - unfold set_elements. js_simpl. by rewrite alter_insert_eq.
    - cbn [forallb]. by rewrite Hactive. }
  unfold addEventListener, modifyElement. rewrite bind_modify.
  unfold set_elements at 1. js_simpl. rewrite alter_insert_eq.
  rewrite appendChild_run; [| done |].
  - reflexivity.
  - js_simpl. unfold descendants. rewrite descendantsUpTo_leaf.
    + apply not_elem_of_nil.
    + intros c. rewrite lookup_total_insert_eq. simpl.
      by intros [=]%list_elem_of_singleton.
Qed.

Lemma addButton_dom a d sc els ty :
  dom (addButton a d sc els ty) = {[fresh (dom els)]} ∪ dom els.
Proof.
  unfold addButton, detached.
  by rewrite dom_alter_L, dom_fmap_L, dom_insert_L.
Qed.

(** The loop of [renderSettings], over any list of supported types. *)
Lemma settingsButtons_run a rs sc types : ∀ els,
  valid_token (CSS_settingsButton a) = true →
  valid_token (CSS_settingsButtonActive a) = true →
  (∀ ty, ty ∈ types → ty ∈ ALERT_TYPES) → sc ∈ dom els →
  forEach (λ ty,
    a ← gets this;
    settingsButton ← _make "div"
        (ClassArray [CSS_settingsButton a; CSS_wrapper;
                     CSS_wrapperForType (JString ty)])
        [("innerHTML", JString "A")];
    d ← getData;
    (if strict_eq_string (type d) ty
     then classList_add settingsButton [CSS_settingsButtonActive a]
     else mret ());;
    addEventListener settingsButton "click"
      (SelectType ty sc settingsButton);;
    appendChild sc settingsButton) types
    {| this := a; elements := els; records := rs |} =
  (Normal (),
   {| this := a;
      elements := foldl (addButton a (rs !!! data a) sc) els types;
      records := rs |}).
Proof.
  induction types as [|ty types IH]; intros els Hsb Hactive Htypes Hsc;
    [done |].
  cbn [forEach foldl]. rewrite bind_run, settingsButton_run; try done.
  - apply IH; [done | done | |].
    + intros ty' Hty'. apply Htypes. by right.
    + rewrite addButton_dom. set_solver.
  - apply Htypes. by left.
Qed.

Lemma renderSettings_run σ :
  valid_token (CSS_settingsButton (this σ)) = true →
  valid_token (CSS_settingsButtonActive (this σ)) = true →
  renderSettings σ =
    (Normal (fresh (dom (elements σ))),
     {| this := this σ;
        elements :=
          foldl (addButton (this σ) (currentData σ) (fresh (dom (elements σ))))
            (<[fresh (dom (elements σ)) := newElement "div"]> (elements σ))
            ALERT_TYPES;
        records := records σ |}).
Proof.
  intros Hsb Hactive. unfold renderSettings.
  rewrite bind_run,
    (_make_run _ _ _ (<[fresh (dom (elements σ)) := newElement "div"]>
                        (elements σ))) by done.
  unfold set_elements. rewrite bind_run, settingsButtons_run; try done.
  rewrite dom_insert_L. apply elem_of_union_l. by apply elem_of_singleton.
Qed.

Lemma same_but_children_refl e : same_but_children e e.
Proof. by destruct e. Qed.

Lemma same_but_children_trans e1 e2 e3 :
  same_but_children e1 e2 → same_but_children e2 e3 →
  same_but_children e1 e3.
Proof. unfold same_but_children. intros -> ->. by destruct e1. Qed.

Lemma filter_children_other (b : loc) (kids : list loc) :
  b ∉ kids →
  filter (λ n, n ≠ Child b) (Child <$> kids) = Child <$> kids.
Proof.
  induction kids as [|k kids IH]; [done |].
  intros [Hk Hkids]%not_elem_of_cons. cbn [fmap list_fmap].
  rewrite filter_cons_True by congruence. by rewrite IH.
Qed.

Section AddButton.
Context (a : Alert) (d : AlertData) (sc : loc).

Lemma addButton_button els ty :
  sc ∈ dom els →
  addButton a d sc els ty !! fresh (dom els) =
    Some (settingsButtonElement a d ty sc (fresh (dom els))).
Proof.
  intros Hsc. unfold addButton, detached. cbv zeta.
  set (b := fresh (dom els)).
  assert (b ∉ dom els) as Hb by apply is_fresh.
  rewrite lookup_alter_ne by (by intros ->).
  by rewrite lookup_fmap, lookup_insert_eq.
Qed.

Lemma addButton_container els ty e :
  els !! sc = Some e →
  addButton a d sc els ty !! sc =
    Some (with_childNodes
            (λ ns, (filter (λ n, n ≠ Child (fresh (dom els))) ns
                    ++ [Child (fresh (dom els))])%list) e).
Proof.
  intros Hsc. unfold addButton, detached. cbv zeta.
  set (b := fresh (dom els)).
  assert (b ∉ dom els) as Hb by apply is_fresh.
  assert (b ≠ sc) as Hne by (intros ->; by apply Hb, elem_of_dom).
  rewrite lookup_alter_eq, lookup_fmap, lookup_insert_ne, Hsc by done.
  by destruct e.
Qed.

Lemma addButton_frame els ty l e :
  els !! l = Some e →
  ∃ e', addButton a d sc els ty !! l = Some e' ∧ same_but_children e e'.
Proof.
  intros Hl. unfold addButton, detached. cbv zeta.
  set (b := fresh (dom els)).
  assert (b ∉ dom els) as Hb by apply is_fresh.
  assert (b ≠ l) as Hne by (intros ->; by apply Hb, elem_of_dom).
  destruct (decide (sc = l)) as [-> | Hsc].
  - rewrite lookup_alter_eq, lookup_fmap, lookup_insert_ne, Hl by done.
    eexists. split; [done |]. by destruct e.
  - rewrite lookup_alter_ne, lookup_fmap, lookup_insert_ne, Hl by done.
    eexists. split; [done |]. by destruct e.
Qed.

(** The loop of [renderSettings] on the document: it appends one new
    button per type to the children of the settings container, in the
    order of the types, and changes no other element but for child
    nodes. *)
Lemma addButtons_spec types : ∀ els kids e,
  els !! sc = Some e → childNodes e = Child <$> kids →
  (∀ k, k ∈ kids → k ∈ dom els) →
  ∃ bs e',
    foldl (addButton a d sc) els types !! sc = Some e' ∧
    childNodes e' = Child <$> (kids ++ bs)%list ∧
    Forall2 (λ ty b,
      (b ∉ dom els) ∧
      ∃ eb, foldl (addButton a d sc) els types !! b = Some eb
            ∧ same_but_children (settingsButtonElement a d ty sc b) eb)
      types bs ∧
    NoDup bs ∧
    (∀ l el, els !! l = Some el →
       ∃ el', foldl (addButton a d sc) els types !! l = Some el'
              ∧ same_but_children el el').
Proof.
  induction types as [|ty types IH]; intros els kids e Hsc Hkids Hdom.
  { exists [], e. rewrite app_nil_r. split_and!; try done.
    - constructor.
    - intros l el Hl. exists el. split; [done | apply same_but_children_refl]. }
  cbn [foldl]. set (b := fresh (dom els)).
  assert (b ∉ dom els) as Hb by apply is_fresh.
  assert (b ∉ kids) as Hbk by (intros Hin; by apply Hb, Hdom).
  assert (sc ∈ dom els) as Hscd by (by apply elem_of_dom).
  pose proof (addButton_container els ty e Hsc) as Hsc1. fold b in Hsc1.
  destruct (IH (addButton a d sc els ty) (kids ++ [b])%list _ Hsc1)
    as (bs & e' & Hsc' & Hkids' & Hbs & Hnd & Hframe).
  { cbn [with_childNodes childNodes]. rewrite Hkids.
    by rewrite filter_children_other, fmap_app. }
  { intros k. rewrite addButton_dom, elem_of_app, list_elem_of_singleton.
    fold b. intros [Hk | ->]; [apply Hdom in Hk |]; set_solver. }
  assert (Forall (λ b', b' ∉ dom (addButton a d sc els ty)) bs) as Hfresh.
  { clear -Hbs. induction Hbs as [|ty' b' types' bs' [Hb' _] _ IH'];
      by constructor. }
  exists (b :: bs), e'. split_and!.
  - done.
  - by rewrite Hkids', <- app_assoc.
  - constructor.
    + split; [done |].
      apply Hframe, addButton_button. done.
    + eapply Forall2_impl; [exact Hbs |]. intros ty' b' [Hb' Heb].
      split; [| done]. intros Hin. apply Hb'. rewrite addButton_dom.
      by apply elem_of_union_r.
  - constructor; [| done]. intros Hin.
    rewrite Forall_forall in Hfresh. apply (Hfresh b Hin).
    rewrite addButton_dom. fold b. set_solver.
  - intros l el Hl.
    destruct (addButton_frame els ty l el Hl) as (el1 & Hl1 & Hs1).
    destruct (Hframe l el1 Hl1) as (el' & Hl' & Hs').
    exists el'. split; [done |]. by eapply same_but_children_trans.
Qed.

End AddButton.

End Settings.

(** ** [_changeAlertType] and the click handler *)

Section Click.
Context `{Host}.

Lemma with_classList_id e : with_classList (λ cl, cl) e = e.
Proof. by destruct e. Qed.

Lemma alter_classList_twice f g l (els : gmap loc Element) :
  alter (with_classList f) l (alter (with_classList g) l els) =
  alter (with_classList (λ cl, f (g cl))) l els.
Proof.
  apply map_eq. intros i. destruct (decide (l = i)) as [<- | Hne].
  - rewrite !lookup_alter_eq. by destruct (els !! l).
  - by rewrite !lookup_alter_ne.
Qed.

(** The loop of [_changeAlertType], over any list of supported types. *)
Lemma changeType_loop a rs c newType types : ∀ els,
  container a = Some c → (∀ ty, ty ∈ types → ty ∈ ALERT_TYPES) →
  forEach (λ ty,
    let alertClass := CSS_wrapperForType (JString ty) in
    c ← getContainer;
    classList_remove c [alertClass];;
    if String.eqb newType ty
    then c ← getContainer; classList_add c [alertClass]
    else mret ()) types
    {| this := a; elements := els; records := rs |} =
  (Normal (),
   {| this := a;
      elements :=
        alter (with_classList (λ cl, foldl (retypedOnce newType) cl types))
          c els;
      records := rs |}).
Proof.
  induction types as [|ty types IH]; intros els Hc Htypes.
  { cbn [forEach foldl]. rewrite alter_id; [done |].
    intros e _. apply with_classList_id. }
  assert (valid_token (CSS_wrapperForType (JString ty)) = true) as Hv.
  { apply type_class_token, Htypes. by left. }
  cbn [forEach foldl]. cbv zeta. rewrite bind_run, bind_run.
  rewrite (getContainer_run _ c) by done.
  rewrite bind_run, classList_remove_run by (cbn [forallb]; by rewrite Hv).
  unfold set_elements at 1. js_simpl.
  assert ((if String.eqb newType ty
           then c0 ← getContainer;
                classList_add c0 [CSS_wrapperForType (JString ty)]
           else mret ())
            {| this := a;
               elements :=
                 alter (with_classList (λ cl,
                   foldl remove_token cl [CSS_wrapperForType (JString ty)]))
                   c els;
               records := rs |} =
          (Normal (),
           {| this := a;
              elements :=
                alter (with_classList (λ cl, retypedOnce newType cl ty)) c els;
              records := rs |})) as ->.
  { unfold retypedOnce. cbv zeta. destruct (String.eqb newType ty).
    - rewrite bind_run, (getContainer_run _ c) by done.
      rewrite classList_add_run by (cbn [forallb]; by rewrite Hv).
      unfold set_elements. js_simpl. by rewrite alter_classList_twice.
    - reflexivity. }
  rewrite IH; [| done | intros ty' Hty'; apply Htypes; by right].
  by rewrite alter_classList_twice.
Qed.

Lemma _changeAlertType_run σ c newType :
  container (this σ) = Some c →
  _changeAlertType newType σ =
    (Normal (),
     {| this := this σ;
        elements := alter (with_classList (retyped newType)) c (elements σ);
        records :=
          alter (with_type (JString newType)) (data (this σ)) (records σ) |}).
Proof.
  intros Hc. unfold _changeAlertType. rewrite bind_modify.
  unfold set_records. by rewrite (changeType_loop _ _ c).
Qed.

(** After the loop the class list holds the class of the new type and
    of no other supported type; the other classes are as before. *)
Lemma retyped_type_class newType cl ty :
  newType ∈ ALERT_TYPES → ty ∈ ALERT_TYPES →
  CSS_wrapperForType (JString ty) ∈ retyped newType cl ↔ ty = newType.
Proof.
  unfold ALERT_TYPES. intros Hnew Hty.
  repeat (apply elem_of_cons in Hnew as [-> | Hnew]);
    try (by apply elem_of_nil in Hnew);
    repeat (apply elem_of_cons in Hty as [-> | Hty]);
    try (by apply elem_of_nil in Hty);
    unfold retyped, retypedOnce; cbn [foldl ALERT_TYPES String.eqb Ascii.eqb
      Bool.eqb];
    rewrite ?elem_of_add_token, ?elem_of_remove_token;
    rewrite ?elem_of_add_token, ?elem_of_remove_token;
    rewrite ?elem_of_add_token, ?elem_of_remove_token;
    unfold CSS_wrapperForType; simpl; intuition (done || discriminate).
Qed.

Lemma retyped_other_class newType cl cls :
  cls ∉ map (λ ty, CSS_wrapperForType (JString ty)) ALERT_TYPES →
  cls ∈ retyped newType cl ↔ cls ∈ cl.
Proof.
  intros Hcls. unfold retyped.
  assert (∀ types cl,
    (∀ ty, ty ∈ types → cls ≠ CSS_wrapperForType (JString ty)) →
    cls ∈ foldl (retypedOnce newType) cl types ↔ cls ∈ cl) as Hloop.
  { induction types as [|ty types IH]; intros cl' Hne; [done |].
    cbn [foldl]. rewrite IH by (intros ty' Hty'; apply Hne; by right).
    unfold retypedOnce. cbv zeta.
    assert (cls ≠ CSS_wrapperForType (JString ty)) by (apply Hne; by left).
    destruct (String.eqb newType ty);
      rewrite ?elem_of_add_token, elem_of_remove_token; tauto. }
  apply Hloop. intros ty Hty Heq. apply Hcls. rewrite Heq.
  apply list_elem_of_In, (in_map (λ ty, CSS_wrapperForType (JString ty))).
  by apply list_elem_of_In.
Qed.

Lemma unhighlight_run a rs active buttons : ∀ els,
  valid_token active = true →
  forEach (λ button, classList_remove button [active]) buttons
    {| this := a; elements := els; records := rs |} =
  (Normal (),
   {| this := a; elements := unhighlighted active els buttons;
      records := rs |}).
Proof.
  induction buttons as [|b buttons IH]; intros els Hv; [done |].
  cbn [forEach]. rewrite bind_run, classList_remove_run
    by (cbn [forallb]; by rewrite Hv).
  unfold set_elements. js_simpl. by rewrite IH.
Qed.

Lemma runListener_run σ c ty sc sb :
  class_name (CSS_settingsButton (this σ)) = true →
  valid_token (CSS_settingsButtonActive (this σ)) = true →
  container (this σ) = Some c →
  runListener (SelectType ty sc sb) σ =
    (Normal (),
     let els := alter (with_classList (retyped ty)) c (elements σ) in
     let active := CSS_settingsButtonActive (this σ) in
     {| this := this σ;
        elements :=
          alter (with_classList (λ cl, foldl add_token cl [active])) sb
            (unhighlighted active els
               (List.filter
                  (λ d, hasClass els d (CSS_settingsButton (this σ)))
                  (descendants els sc)));
        records :=
          alter (with_type (JString ty)) (data (this σ)) (records σ) |}).
Proof.
  intros Hsb Ha Hc. unfold runListener.
  rewrite bind_run, (_changeAlertType_run _ c) by done.
  rewrite bind_gets. js_simpl.
  rewrite bind_run, querySelectorAll_run by done. js_simpl.
  rewrite bind_run, unhighlight_run by done.
  rewrite classList_add_run; [done |]. cbn [forallb]. by rewrite Ha.
Qed.

(** Classes other than the active class stay where they are when the
    handler moves the highlight. *)
Lemma classList_alter_other f l (els : gmap loc Element) el cls :
  (∀ cl, cls ∈ f cl ↔ cls ∈ cl) →
  cls ∈ classList (alter (with_classList f) l els !!! el)
    ↔ cls ∈ classList (els !!! el).
Proof.
  intros Hf. rewrite lookup_total_alter. case_decide as Heq; [| done].
  subst el. rewrite lookup_total_alt. destruct (els !! l) as [e|]; [| done].
  simpl. apply Hf.
Qed.

Lemma unhighlighted_other active buttons : ∀ els el cls,
  cls ≠ active →
  cls ∈ classList (unhighlighted active els buttons !!! el)
    ↔ cls ∈ classList (els !!! el).
Proof.
  induction buttons as [|b buttons IH]; intros els el cls Hne; [done |].
  change (unhighlighted active els (b :: buttons)) with
    (unhighlighted active
       (alter (with_classList (λ cl, foldl remove_token cl [active])) b els)
       buttons).
  rewrite IH by done. apply classList_alter_other.
  intros cl. cbn [foldl]. rewrite elem_of_remove_token. tauto.
Qed.

Lemma strict_eq_string_true v s :
  strict_eq_string v s = true ↔ v = JString s.
Proof.
  destruct v; simpl; try (split; [discriminate | congruence]).
  rewrite String.eqb_eq. split; congruence.
Qed.

(** The classes of the button [renderSettings] builds for [ty]. *)
Lemma settingsButtonElement_classes a d ty sc b :
  wf_api (api a) → ty ∈ ALERT_TYPES →
  let e := settingsButtonElement a d ty sc b in
  CSS_settingsButton a ∈ classList e ∧
  CSS_wrapper ∈ classList e ∧
  CSS_wrapperForType (JString ty) ∈ classList e ∧
  (CSS_settingsButtonActive a ∈ classList e ↔ type d = JString ty).
Proof.
  intros (_ & _ & Hactive) Hty e. subst e.
  cbn [settingsButtonElement classList].
  rewrite !elem_of_add_tokens, <- strict_eq_string_true.
  rewrite !elem_of_cons, !elem_of_nil.
  split_and!; try tauto.
  assert (¬ (CSS_settingsButtonActive a = CSS_settingsButton a
             ∨ CSS_settingsButtonActive a = CSS_wrapper
             ∨ CSS_settingsButtonActive a = CSS_wrapperForType (JString ty)))
    as Hne.
  { intros Heq. apply Hactive. unfold CSS_settingsButtonActive,
      CSS_settingsButton in Heq.
    rewrite !elem_of_cons. destruct Heq as [-> | [-> | ->]]; [tauto.. |].
    right. right. apply list_elem_of_In,
      (in_map (λ ty, CSS_wrapperForType (JString ty))).
    by apply list_elem_of_In. }
  destruct (strict_eq_string (type d) ty).
  - rewrite list_elem_of_singleton. tauto.
  - rewrite elem_of_nil. split; [tauto | discriminate].
Qed.

Lemma click_run b σ l :
  listeners (elements σ !!! b) = [("click", l)] →
  click b σ = (runListener l;; mret ()) σ.
Proof.
  intros Hl. unfold click, getElement. rewrite bind_gets, Hl. reflexivity.
Qed.

(** A click on the button of a supported type, in a state where the
    settings are in place: the type of the data becomes that type, the
    container loses the classes of the other supported types and has
    that of the type, and the settings stay in place. *)
Lemma click_selects σ c sc bs i ty b :
  settings_ready σ c sc bs →
  ALERT_TYPES !! i = Some ty → bs !! i = Some b →
  ∃ σ',
    click b σ = (Normal (), σ') ∧
    settings_ready σ' c sc bs ∧
    type (currentData σ') = JString ty ∧
    message (currentData σ') = message (currentData σ) ∧
    (∀ ty', ty' ∈ ALERT_TYPES →
       hasClass (elements σ') c (CSS_wrapperForType (JString ty')) = true
         ↔ ty' = ty) ∧
    (hasClass (elements σ') c CSS_wrapper
       = hasClass (elements σ) c CSS_wrapper).
Proof.
  intros (Hapi & Hc & [ec Hec] & [d Hd] & Hbs) Hty Hb.
  assert (ty ∈ ALERT_TYPES) as Htyin by (by eapply list_elem_of_lookup_2).
  pose proof (Forall2_lookup_lr _ _ _ _ _ _ Hbs Hty Hb) as Hl.
  rewrite (click_run _ _ _ Hl), bind_run, (runListener_run _ c);
    [| by destruct Hapi | by apply wf_api_tokens | done].
  cbv zeta beta iota.
  set (els1 := alter (with_classList (retyped ty)) c (elements σ)).
  set (active := CSS_settingsButtonActive (this σ)).
  set (buttons := List.filter _ _).
  set (els2 := alter _ b (unhighlighted active els1 buttons)).
  eexists. split; [reflexivity |].
  assert (∀ cls el, cls ≠ active →
            cls ∈ classList (els2 !!! el) ↔ cls ∈ classList (els1 !!! el))
    as Hother.
  { intros cls el Hne. subst els2.
    rewrite classList_alter_other, unhighlighted_other; [done | done |].
    intros cl. rewrite elem_of_add_tokens, list_elem_of_singleton. tauto. }
  assert (∀ l : loc, listeners (els2 !!! l) = listeners (elements σ !!! l)
                     ∧ (is_Some (elements σ !! l) → is_Some (els2 !! l)))
    as Hframe.
  { intros l. subst els2 els1.
    assert (∀ (els : gmap loc Element) f l',
              listeners (alter (with_classList f) l' els !!! l)
                = listeners (els !!! l)
              ∧ (is_Some (els !! l)
                 → is_Some (alter (with_classList f) l' els !! l)))
      as Halter.
    { intros els f l'. rewrite lookup_total_alter, lookup_alter.
      case_decide as Heq; [subst l' | done].
      rewrite lookup_total_alt. destruct (els !! l); [| done]. simpl.
      split; [done | by eexists]. }
    assert (∀ bs' els,
              listeners (unhighlighted active els bs' !!! l)
                = listeners (els !!! l)
              ∧ (is_Some (els !! l)
                 → is_Some (unhighlighted active els bs' !! l))) as Hun.
    { induction bs' as [|b' bs' IH]; intros els; [done |].
      change (unhighlighted active els (b' :: bs')) with
        (unhighlighted active
           (alter (with_classList (λ cl, foldl remove_token cl [active]))
              b' els) bs').
      destruct (IH (alter (with_classList
                  (λ cl, foldl remove_token cl [active])) b' els))
        as [-> Hs].
      destruct (Halter els (λ cl, foldl remove_token cl [active]) b')
        as [-> Hs'].
      split; [done | intros ?; by apply Hs, Hs']. }
    set (els1 := alter (with_classList (retyped ty)) c (elements σ)).
    destruct (Halter (unhighlighted active els1 buttons)
                (λ cl, foldl add_token cl [active]) b) as [-> Hs1].
    destruct (Hun buttons els1) as [-> Hs2].
    destruct (Halter (elements σ) (retyped ty) c) as [Hl3 Hs3].
    fold els1 in Hl3, Hs3. rewrite Hl3.
    split; [done | intros ?; by apply Hs1, Hs2, Hs3]. }
  assert (∀ ty', ty' ∈ ALERT_TYPES →
            CSS_wrapperForType (JString ty') ≠ active) as Htypeclass.
  { intros ty' Hty' Heq. destruct Hapi as (_ & _ & Hactive). apply Hactive.
    change (styles_settingsButtonActive (api (this σ))) with active.
    rewrite <- Heq. right. right.
    apply list_elem_of_In, (in_map (λ ty, CSS_wrapperForType (JString ty))).
    by apply list_elem_of_In. }
  assert (els1 !!! c = with_classList (retyped ty) ec) as Hc1.
  { subst els1. rewrite lookup_total_alter_eq, Hec. reflexivity. }
  split_and!.
  - split_and!; js_simpl; try done.
    + by apply Hframe.
    + rewrite lookup_alter_eq, Hd. by eexists.
    + eapply Forall2_impl; [exact Hbs |]. intros ty' b' Hb'.
      by rewrite (proj1 (Hframe b')).
  - unfold currentData. js_simpl.
    by rewrite lookup_total_alter_eq, Hd.
  - unfold currentData. js_simpl.
    by rewrite lookup_total_alter_eq, Hd, (lookup_total_correct _ _ _ Hd).
  - intros ty' Hty'. unfold hasClass. js_simpl.
    rewrite bool_decide_eq_true, Hother, Hc1 by (by apply Htypeclass).
    by apply retyped_type_class.
  - unfold hasClass. js_simpl. apply bool_decide_ext.
    assert (CSS_wrapper ≠ active) as Hne.
    { intros Heq. destruct Hapi as (_ & _ & Hactive). apply Hactive.
      change (styles_settingsButtonActive (api (this σ))) with active.
      rewrite <- Heq. right. by left. }
    rewrite Hother, Hc1, (lookup_total_correct _ _ _ Hec) by done.
    apply retyped_other_class.
    unfold ALERT_TYPES, CSS_wrapper, CSS_wrapperForType. simpl.
    rewrite !elem_of_cons, elem_of_nil. intuition discriminate.
Qed.

End Click.

(** ** The settings of a rendered block *)

Section SettingsClick.
Context `{Host}.

Lemma same_but_children_fields e e' :
  same_but_children e e' →
  classList e' = classList e ∧ listeners e' = listeners e.
Proof. intros ->. by destruct e. Qed.

(** [renderSettings] in a state whose instance has well-formed styles,
    and the clicks on the buttons it returns. *)
Lemma renderSettings_spec σ :
  wf_api (api (this σ)) →
  ∃ sc bs σ',
    renderSettings σ = (Normal sc, σ') ∧
    childNodes (elements σ' !!! sc) = Child <$> bs ∧
    Forall2 (is_settingsButton (this σ) (type (currentData σ))
               (elements σ') sc) ALERT_TYPES bs ∧
    NoDup bs ∧
    ∀ c, container (this σ) = Some c → wf_state σ →
      settings_ready σ' c sc bs ∧
      ∀ σ1, settings_ready σ1 c sc bs →
        ∀ i ty b, ALERT_TYPES !! i = Some ty → bs !! i = Some b →
          ∃ σ2,
            click b σ1 = (Normal (), σ2) ∧
            settings_ready σ2 c sc bs ∧
            type (currentData σ2) = JString ty ∧
            (∀ ty', ty' ∈ ALERT_TYPES →
               hasClass (elements σ2) c (CSS_wrapperForType (JString ty'))
                 = true ↔ ty' = ty).
Proof.
  intros Hapi.
  rewrite renderSettings_run by (by apply wf_api_tokens).
  set (sc := fresh (dom (elements σ))).
  assert (sc ∉ dom (elements σ)) as Hsc by apply is_fresh.
  set (els0 := <[sc := newElement "div"]> (elements σ)).
  destruct (addButtons_spec (this σ) (currentData σ) sc ALERT_TYPES
              els0 [] (newElement "div"))
    as (bs & e' & Hsc' & Hkids & Hbs & Hnd & Hframe).
  { apply lookup_insert_eq. }
  { done. }
  { intros k Hk. by apply elem_of_nil in Hk. }
  set (els' := foldl _ els0 ALERT_TYPES) in *.
  exists sc, bs. eexists. split; [reflexivity |]. js_simpl.
  assert (Forall2 (λ ty b,
            ty ∈ ALERT_TYPES ∧
            ∃ eb, els' !! b = Some eb
                  ∧ same_but_children
                      (settingsButtonElement (this σ) (currentData σ) ty sc b)
                      eb) ALERT_TYPES bs) as Hbs'.
  { apply Forall2_same_length_lookup. split; [by eapply Forall2_length |].
    intros i ty b Hty Hb. split; [by eapply list_elem_of_lookup_2 |].
    by destruct (Forall2_lookup_lr _ _ _ _ _ _ Hbs Hty Hb) as [_ Heb]. }
  split_and!.
  - by rewrite (lookup_total_correct _ _ _ Hsc'), Hkids.
  - eapply Forall2_impl; [exact Hbs' |].
    intros ty b (Hty & eb & Heb & Hsame).
    apply same_but_children_fields in Hsame as [Hcl Hls].
    exists eb. rewrite Hcl, Hls. split; [done |].
    destruct (settingsButtonElement_classes (this σ) (currentData σ)
                ty sc b Hapi Hty) as (? & ? & ? & ?).
    by split_and!.
  - done.
  - intros c Hc [Hdata Hcont]. destruct (Hcont c Hc) as [ec Hec].
    assert (sc ≠ c) as Hne by (intros Heq; apply Hsc; rewrite Heq;
                               by apply elem_of_dom).
    split.
    + split_and!; try done.
      * destruct (Hframe c ec) as (ec' & Hec' & _); [| by eexists].
        subst els0. by rewrite lookup_insert_ne.
      * eapply Forall2_impl; [exact Hbs' |].
        intros ty b (Hty & eb & Heb & Hsame).
        apply same_but_children_fields in Hsame as [_ Hls].
        by rewrite (lookup_total_correct _ _ _ Heb), Hls.
    + intros σ1 Hready i ty b Hty Hb.
      destruct (click_selects σ1 c sc bs i ty b Hready Hty Hb)
        as (σ2 & Hclick & Hready2 & Htype & _ & Hclasses & _).
      by exists σ2.
Qed.

(** C7: at any time after the construction, [renderSettings] returns a
    container whose children are one button per supported type, in the
    order of [ALERT_TYPES], the button of the current type carrying the
    active class; once the block is rendered, a click on the button of a
    type sets the type of the data to it and leaves the rendered
    container with the class of that type and of no other supported
    type, now and after any further click. *)
Theorem renderSettings_click args cs σ0 :
  let σ := calls cs (constructor args σ0).2 in
  wf_api (arg_api args) →
  ∃ sc bs σ',
    renderSettings σ = (Normal sc, σ') ∧
    childNodes (elements σ' !!! sc) = Child <$> bs ∧
    Forall2 (is_settingsButton (this σ) (type (currentData σ))
               (elements σ') sc) ALERT_TYPES bs ∧
    NoDup bs ∧
    ∀ c, container (this σ) = Some c →
      settings_ready σ' c sc bs ∧
      ∀ σ1, settings_ready σ1 c sc bs →
        ∀ i ty b, ALERT_TYPES !! i = Some ty → bs !! i = Some b →
          ∃ σ2,
            click b σ1 = (Normal (), σ2) ∧
            settings_ready σ2 c sc bs ∧
            type (currentData σ2) = JString ty ∧
            (∀ ty', ty' ∈ ALERT_TYPES →
               hasClass (elements σ2) c (CSS_wrapperForType (JString ty'))
                 = true ↔ ty' = ty).
Proof.
  intros σ Hapi.
  assert (api (this σ) = arg_api args) as Hsame.
  { pose proof (constructed_configuration args cs σ0) as Hs. fold σ in Hs.
    by injection Hs. }
  rewrite <- Hsame in Hapi.
  destruct (renderSettings_spec σ Hapi)
    as (sc & bs & σ' & Hrun & Hkids & Hbs & Hnd & Hclick).
  exists sc, bs, σ'. split_and!; try done.
  intros c Hc. apply Hclick; [done |]. apply constructed_wf.
Qed.

End SettingsClick.

(** ** Exceptions *)

Section Exceptions.
Context `{Host}.




End Exceptions.
(** ** Further properties: the constructor and [_make] *)

Section FurtherConstructor.
Context `{Host}.

(** X1: the constructor is idempotent on the data: an instance built
    from the data of an instance, with the same configuration, has the
    same data. *)
Theorem constructor_idempotent args σ σ' :
  let d := currentData (constructor args σ).2 in
  currentData
    (constructor {| arg_data := d; arg_config := arg_config args;
                    arg_api := arg_api args;
                    arg_readOnly := arg_readOnly args |} σ').2 = d.
Proof.
  intros d. subst d. rewrite !constructor_data.
  cbn [arg_data arg_config type message]. f_equal.
  - destruct (includes ALERT_TYPES (type (arg_data args))) eqn:Hin.
    + by rewrite Hin.
    + destruct (includes ALERT_TYPES (js_or _ _)); reflexivity.
  - unfold js_or. destruct (ToBoolean (message (arg_data args))) eqn:Hm.
    + by rewrite Hm.
    + done.
Qed.

(** X2: whatever is called on an instance after its construction, and
    however the calls complete, [api], [defaultType],
    [messagePlaceholder] and [readOnly] are what the constructor
    assigned: the API and the flag it was given, and the configured
    default type and placeholder or, without them, ['info'] and
    ['Type here...']. *)
Theorem configuration_fixed args cs σ0 :
  let a := this (calls cs (constructor args σ0).2) in
  api a = arg_api args ∧
  defaultType a
    = js_or (config_defaultType (arg_config args)) (JString "info") ∧
  messagePlaceholder a
    = js_or (config_messagePlaceholder (arg_config args))
        (JString "Type here...") ∧
  readOnly a = arg_readOnly args.
Proof.
  intros a. pose proof (constructed_configuration args cs σ0) as Hs.
  fold a in Hs. by injection Hs.
Qed.



Lemma add_token_new (tokens : list string) token :
  token ∉ tokens → add_token tokens token = (tokens ++ [token])%list.
Proof. intros Hin. unfold add_token. by rewrite bool_decide_eq_false_2. Qed.





End FurtherConstructor.

(** ** Further properties: [render] *)

Section FurtherRender.
Context `{Host}.








(** X9: a record without a message, or with an empty or otherwise falsy
    one, renders to a message element without a child, and [save]
    returns the empty string as its message. *)
Theorem empty_message_roundtrip σ args :
  ToBoolean (message (arg_data args)) = false →
  valid_token
    (CSS_wrapperForType (type (currentData (constructor args σ).2))) = true →
  ∃ c m r σ',
    (constructor args;; c ← render; r ← save c; mret (c, r)) σ
      = (Normal (c, r), σ') ∧
    childNodes (elements σ' !!! c) = [Child m] ∧
    childNodes (elements σ' !!! m) = [] ∧
    message (records σ' !!! r) = JString "".
Proof.
  intros Hmsg Hv. pose proof (constructor_data args σ) as Hdata.
  rewrite bind_run. destruct (constructor args σ) as [r0 σ0] eqn:Hc.
  rewrite constructor_run in Hc. injection Hc as <- Hσ0.
  cbn [snd] in Hdata, Hv.
  assert (message (currentData σ0) = JString "") as Hcur.
  { rewrite Hdata. cbn [message]. unfold js_or. by rewrite Hmsg. }
  destruct (render_spec σ0 Hv) as
    (c & m & kids & σ1 & Hrun & _ & _ & _ & Hthis & Hrec & Hec & Hem & Hq
     & Hhtml & _ & _ & _ & Hlen & _).
  rewrite Hcur in Hlen, Hhtml. unfold readBack, assignedMarkup in Hlen, Hhtml.
  cbn [ToString] in Hlen, Hhtml. rewrite parseHTML_empty in Hlen, Hhtml.
  destruct kids as [|n kids]; [| done].
  rewrite bind_run, Hrun. cbv beta iota.
  rewrite bind_run, save_run, Hq. cbv beta iota.
  eexists c, m, _, _. split; [reflexivity |]. js_simpl.
  rewrite (lookup_total_correct _ _ _ Hec), (lookup_total_correct _ _ _ Hem).
  by rewrite lookup_total_insert_eq, Hhtml.
Qed.

End FurtherRender.

(** ** Further properties: [save], [onPaste] and the conversion *)

Section FurtherSave.
Context `{Host}.

(** X10: [save(element)] completes exactly when [element] has a
    descendant with the message class; without one it ends in a
    TypeError, and in no other exception, and nothing has changed. *)
Theorem save_outcome σ el :
  ((∃ d, d ∈ descendants (elements σ) el
         ∧ hasClass (elements σ) d CSS_message = true) ∧
   ∃ r σ', save el σ = (Normal r, σ')) ∨
  ((∀ d, d ∈ descendants (elements σ) el →
         hasClass (elements σ) d CSS_message = false) ∧
   save el σ = (Throw TypeError, σ)).
Proof.
  rewrite save_run.
  destruct (firstWithClass (elements σ) el CSS_message) as [d|] eqn:Hd.
  - left. split; [| by eexists _, _].
    unfold firstWithClass in Hd.
    apply head_filter_Some in Hd as (pre & post & Hds & Hcls & _).
    exists d. split; [| done]. rewrite Hds, elem_of_app. right. by left.
  - right. split; [| done]. intros d Hin.
    destruct (hasClass (elements σ) d CSS_message) eqn:Hcls; [| done].
    destruct (firstWithClass_is_Some (elements σ) el CSS_message) as [x Hx].
    { by exists d. }
    congruence.
Qed.


(** X12: [onPaste] changes neither the document nor [this.container]:
    [save] on an element right after it returns the default type and,
    as message, what the element held before the paste, not what was
    pasted; where [save] threw before, it throws after. *)
Theorem onPaste_keeps_document event σ el :
  let σ1 := (onPaste event σ).2 in
  elements σ1 = elements σ ∧ container (this σ1) = container (this σ) ∧
  match save el σ with
  | (Normal r, σ') =>
      ∃ r1 σ1',
        save el σ1 = (Normal r1, σ1') ∧
        message (records σ1' !!! r1) = message (records σ' !!! r) ∧
        type (records σ1' !!! r1) = defaultType (this σ)
  | (Throw e, _) => save el σ1 = (Throw e, σ1)
  end.
Proof.
  intros σ1. pose proof (onPaste_data event σ) as Hdata. fold σ1 in Hdata.
  assert (elements σ1 = elements σ) as Hels.
  { subst σ1. by rewrite onPaste_run. }
  split_and!; [done | subst σ1; by rewrite onPaste_run |].
  rewrite !save_run, Hels.
  destruct (firstWithClass (elements σ) el CSS_message) as [d|]; [| done].
  eexists _, _. split; [reflexivity |]. simpl.
  by rewrite !lookup_total_insert_eq, Hdata.
Qed.

(** X13: a string converted to an Alert by [conversionConfig.import]
    goes through the constructor, [render] and [save] with the type
    ['info'], whatever default type is configured, and exports as the
    string as the browser serialises it. *)
Theorem import_render_save σ s config a ro :
  ∃ c r σ',
    (constructor {| arg_data := conversionConfig_import s;
                    arg_config := config; arg_api := a;
                    arg_readOnly := ro |};;
     c ← render; r ← save c; mret (c, r)) σ = (Normal (c, r), σ') ∧
    type (records σ' !!! r) = JString "info" ∧
    conversionConfig_export (records σ' !!! r)
      = JString (readBack (JString s)).
Proof.
  destruct (render_save_run σ "info" s config a ro)
    as (c & r & σ' & Hrun & Hr).
  { by left. }
  exists c, r, σ'. split; [exact Hrun |].
  by rewrite (lookup_total_correct _ _ _ Hr).
Qed.

End FurtherSave.

(** ** Further properties: [_changeAlertType] *)

Section FurtherType.
Context `{Host}.

(** The class list after the loop of [_changeAlertType]. *)
Lemma remove_token_app (tokens : list string) a b :
  a ≠ b →
  remove_token (tokens ++ [a]) b = (remove_token tokens b ++ [a])%list.
Proof.
  intros Hne. unfold remove_token. rewrite filter_app. f_equal.
  by rewrite filter_cons_True.
Qed.

Lemma retyped_closed newType cl :
  retyped newType cl =
    (filter (λ cls, cls ∉ typeClasses) cl ++
     if bool_decide (newType ∈ ALERT_TYPES)
     then [CSS_wrapperForType (JString newType)] else [])%list.
Proof.
  assert (∀ a b c (l : list string),
    remove_token (remove_token (remove_token l a) b) c
      = filter (λ cls, cls ∉ [a; b; c]) l) as Hfuse.
  { intros a b c l. unfold remove_token. rewrite !list_filter_filter.
    apply list_filter_iff. intros x.
    rewrite !elem_of_cons, elem_of_nil. tauto. }
  assert (∀ a (l : list string),
    add_token (remove_token l a) a = (remove_token l a ++ [a])%list) as Hadd.
  { intros a l. apply add_token_new. rewrite elem_of_remove_token. tauto. }
  unfold retyped, ALERT_TYPES, typeClasses. cbn [foldl map].
  destruct (String.eqb newType "info") eqn:H1.
  { apply String.eqb_eq in H1 as ->. unfold retypedOnce. cbv zeta.
    cbn [String.eqb Ascii.eqb Bool.eqb]. cbv iota.
    rewrite Hadd, !remove_token_app by discriminate.
    by rewrite Hfuse. }
  destruct (String.eqb newType "hinweis") eqn:H2.
  { apply String.eqb_eq in H2 as ->. unfold retypedOnce. cbv zeta.
    cbn [String.eqb Ascii.eqb Bool.eqb]. cbv iota.
    rewrite Hadd, !remove_token_app by discriminate.
    by rewrite Hfuse. }
  destruct (String.eqb newType "warnung") eqn:H3.
  { apply String.eqb_eq in H3 as ->. unfold retypedOnce. cbv zeta.
    cbn [String.eqb Ascii.eqb Bool.eqb]. cbv iota.
    rewrite Hadd. by rewrite Hfuse. }
  unfold retypedOnce. cbv zeta. rewrite H1, H2, H3, Hfuse.
  apply String.eqb_neq in H1, H2, H3.
  rewrite bool_decide_eq_false_2; [by rewrite app_nil_r |].
  rewrite !elem_of_cons, elem_of_nil. tauto.
Qed.

Lemma retyped_twice t1 t2 cl : retyped t2 (retyped t1 cl) = retyped t2 cl.
Proof.
  rewrite !retyped_closed. f_equal. rewrite filter_app, list_filter_filter.
  assert (filter (λ cls, cls ∉ typeClasses)
            (if bool_decide (t1 ∈ ALERT_TYPES)
             then [CSS_wrapperForType (JString t1)] else []) = []) as ->.
  { case_bool_decide as Hin; [| done]. rewrite filter_cons_False; [done |].
    intros Hnot. apply Hnot. unfold typeClasses.
    apply list_elem_of_In, (in_map (λ ty, CSS_wrapperForType (JString ty))).
    by apply list_elem_of_In. }
  rewrite app_nil_r. apply list_filter_iff. tauto.
Qed.

(** X14: [_changeAlertType(newType)] on a rendered block sets the type
    of the data and leaves the container with the classes it had
    without the three type classes, in their order, followed by the
    class of [newType] when that is a supported type; nothing else of
    the container, no other element and no field of the instance
    changes. *)
Theorem _changeAlertType_classes σ c e newType :
  container (this σ) = Some c → elements σ !! c = Some e →
  ∃ σ' e',
    _changeAlertType newType σ = (Normal (), σ') ∧
    this σ' = this σ ∧
    records σ'
      = alter (with_type (JString newType)) (data (this σ)) (records σ) ∧
    (∀ l, l ≠ c → elements σ' !! l = elements σ !! l) ∧
    elements σ' !! c = Some e' ∧
    e' = with_classList (λ _, classList e') e ∧
    classList e' =
      (filter (λ cls, cls ∉ typeClasses) (classList e) ++
       if bool_decide (newType ∈ ALERT_TYPES)
       then [("meldung_" ++ newType)%string] else [])%list.
Proof.
  intros Hc He. rewrite (_changeAlertType_run _ c) by done.
  eexists _, _. split; [reflexivity |]. js_simpl. split_and!; try done.
  - intros l Hl. by rewrite lookup_alter_ne.
  - by rewrite lookup_alter_eq, He.
  - by destruct e.
  - cbn [with_classList classList]. apply retyped_closed.
Qed.

(** X15: of two calls of [_changeAlertType] in a row on a rendered
    block only the second shows: the state is the one the second call
    alone leaves. *)
Theorem _changeAlertType_last_wins σ t1 t2 :
  is_Some (container (this σ)) →
  (_changeAlertType t1;; _changeAlertType t2) σ = _changeAlertType t2 σ.
Proof.
  intros [c Hc]. rewrite bind_run, (_changeAlertType_run _ c) by done.
  cbv beta iota. rewrite !(_changeAlertType_run _ c) by done. js_simpl.
  f_equal. f_equal.
  - rewrite alter_classList_twice. apply map_eq. intros l.
    destruct (decide (c = l)) as [<- | Hne]; [| by rewrite !lookup_alter_ne].
    rewrite !lookup_alter_eq.
    destruct (elements σ !! c) as [e|]; [| done]. simpl. f_equal.
    unfold with_classList. simpl. by rewrite retyped_twice.
  - apply map_eq. intros l.
    destruct (decide (data (this σ) = l)) as [<- | Hne];
      [| by rewrite !lookup_alter_ne].
    rewrite !lookup_alter_eq. by destruct (records σ !! _).
Qed.


End FurtherType.

(** ** Further properties: the settings *)

Section FurtherSettings.
Context `{Host}.

Lemma closed_fresh (els : gmap loc Element) e child :
  closed els e → child ∉ dom els → Child child ∉ childNodes e.
Proof. intros Hclosed Hchild Hin. by apply Hchild, Hclosed. Qed.

Lemma closed_mono (els els' : gmap loc Element) e :
  closed els e → dom els ⊆ dom els' → closed els' e.
Proof. intros Hclosed Hsub x Hx. by apply Hsub, Hclosed. Qed.

Section AddButtonExact.
Context (a : Alert) (d : AlertData) (sc : loc).

Lemma settingsButtonElement_leaf ty b x :
  Child x ∉ childNodes (settingsButtonElement a d ty sc b).
Proof. by intros [=]%list_elem_of_singleton. Qed.

Lemma addButton_closed els ty l e :
  els !! l = Some e → l ≠ sc → closed els e →
  addButton a d sc els ty !! l = Some e.
Proof.
  intros Hl Hne Hclosed. unfold addButton. cbv zeta.
  set (b := fresh (dom els)).
  assert (b ∉ dom els) as Hb by apply is_fresh.
  assert (b ≠ l) by (intros ->; by apply Hb, elem_of_dom).
  rewrite lookup_alter_ne by done. apply detached_other.
  - by rewrite lookup_insert_ne.
  - by eapply closed_fresh.
Qed.

Lemma addButtons_exact types : ∀ els kids e,
  els !! sc = Some e → childNodes e = Child <$> kids →
  (∀ k, k ∈ kids → k ∈ dom els) →
  ∃ bs e',
    foldl (addButton a d sc) els types !! sc = Some e' ∧
    childNodes e' = Child <$> (kids ++ bs)%list ∧
    same_but_children e e' ∧
    Forall2 (λ ty b,
      (b ∉ dom els) ∧
      foldl (addButton a d sc) els types !! b
        = Some (settingsButtonElement a d ty sc b)) types bs ∧
    NoDup bs ∧
    (∀ l, l ∈ dom (foldl (addButton a d sc) els types)
          ↔ l ∈ bs ∨ l ∈ dom els) ∧
    (∀ l el, els !! l = Some el → l ≠ sc → closed els el →
       foldl (addButton a d sc) els types !! l = Some el).
Proof.
  induction types as [|ty types IH]; intros els kids e Hsc Hkids Hdom.
  { exists [], e. rewrite app_nil_r.
    split_and!; try done.
    - apply same_but_children_refl.
    - constructor.
    - intros l. rewrite elem_of_nil. tauto. }
  cbn [foldl]. set (b := fresh (dom els)).
  assert (b ∉ dom els) as Hb by apply is_fresh.
  assert (b ∉ kids) as Hbk by (intros Hin; by apply Hb, Hdom).
  assert (sc ∈ dom els) as Hscd by (by apply elem_of_dom).
  assert (b ≠ sc) as Hbsc by (by intros ->).
  pose proof (addButton_container a d sc els ty e Hsc) as Hsc1. fold b in Hsc1.
  assert (∀ l, l ∈ dom (addButton a d sc els ty) ↔ l = b ∨ l ∈ dom els)
    as Hdom1.
  { intros l. rewrite addButton_dom, elem_of_union, elem_of_singleton.
    done. }
  destruct (IH (addButton a d sc els ty) (kids ++ [b])%list _ Hsc1)
    as (bs & e' & Hsc' & Hkids' & Hsame & Hbs & Hnd & Hdom' & Hframe).
  { cbn [with_childNodes childNodes]. rewrite Hkids.
    by rewrite filter_children_other, fmap_app. }
  { intros k. rewrite Hdom1, elem_of_app, list_elem_of_singleton.
    intros [Hk | ->]; [right; by apply Hdom | by left]. }
  assert (Forall (λ b', b' ∉ dom (addButton a d sc els ty)) bs) as Hfresh.
  { clear -Hbs. induction Hbs as [|ty' b' types' bs' [Hb' _] _ IH'];
      by constructor. }
  exists (b :: bs), e'. split_and!.
  - done.
  - by rewrite Hkids', <- app_assoc.
  - eapply same_but_children_trans; [| exact Hsame]. by destruct e.
  - constructor.
    + split; [done |]. apply Hframe; [| done |].
      * by apply addButton_button.
      * intros x Hx. by apply settingsButtonElement_leaf in Hx.
    + eapply Forall2_impl; [exact Hbs |]. intros ty' b' [Hb' Heb].
      split; [| done]. intros Hin. apply Hb', Hdom1. by right.
  - constructor; [| done]. intros Hin.
    rewrite Forall_forall in Hfresh. apply (Hfresh b Hin), Hdom1. by left.
  - intros l. rewrite Hdom', Hdom1, elem_of_cons. tauto.
  - intros l el Hl Hne Hclosed. apply Hframe; [| done |].
    + by apply addButton_closed.
    + eapply closed_mono; [done |]. intros x Hx. apply Hdom1. by right.
Qed.

End AddButtonExact.

(** [renderSettings], element by element. *)
Lemma renderSettings_exact σ :
  valid_token (CSS_settingsButton (this σ)) = true →
  valid_token (CSS_settingsButtonActive (this σ)) = true →
  ∃ sc bs σ',
    renderSettings σ = (Normal sc, σ') ∧
    (sc ∉ dom (elements σ)) ∧
    this σ' = this σ ∧ records σ' = records σ ∧
    (∃ esc, elements σ' !! sc = Some esc ∧
            esc = with_childNodes (λ _, Child <$> bs) (newElement "div")) ∧
    Forall2 (λ ty b,
      (b ∉ dom (elements σ)) ∧ b ≠ sc ∧
      elements σ' !! b
        = Some (settingsButtonElement (this σ) (currentData σ) ty sc b))
      ALERT_TYPES bs ∧
    NoDup bs ∧
    (∀ l, l ∈ dom (elements σ')
          ↔ l ∈ bs ∨ l = sc ∨ l ∈ dom (elements σ)) ∧
    (∀ l e, elements σ !! l = Some e → closed (elements σ) e →
       elements σ' !! l = Some e).
Proof.
  intros Hsb Hactive. rewrite renderSettings_run by done.
  set (sc := fresh (dom (elements σ))).
  assert (sc ∉ dom (elements σ)) as Hsc by apply is_fresh.
  set (els0 := <[sc := newElement "div"]> (elements σ)).
  destruct (addButtons_exact (this σ) (currentData σ) sc ALERT_TYPES
              els0 [] (newElement "div"))
    as (bs & e' & Hsc' & Hkids & Hsame & Hbs & Hnd & Hdom & Hframe).
  { apply lookup_insert_eq. }
  { done. }
  { intros k Hk. by apply elem_of_nil in Hk. }
  set (els' := foldl _ els0 ALERT_TYPES) in *.
  assert (∀ l, l ∈ dom els0 ↔ l = sc ∨ l ∈ dom (elements σ)) as Hdom0.
  { intros l. subst els0.
    by rewrite dom_insert_L, elem_of_union, elem_of_singleton. }
  exists sc, bs. eexists. split; [reflexivity |]. js_simpl.
  split_and!; try done.
  - exists e'. split; [done |]. rewrite Hsame, Hkids. reflexivity.
  - eapply Forall2_impl; [exact Hbs |]. intros ty b [Hb Heb].
    split_and!; [| | done].
    + intros Hin. apply Hb, Hdom0. by right.
    + intros ->. apply Hb, Hdom0. by left.
  - intros l. by rewrite Hdom, Hdom0.
  - intros l e Hl Hclosed.
    assert (l ≠ sc) as Hne by (intros ->; by apply Hsc, elem_of_dom).
    apply Hframe; [| done |].
    + subst els0. by rewrite lookup_insert_ne.
    + eapply closed_mono; [done |]. intros x Hx. apply Hdom0. by right.
Qed.

(** X17: [renderSettings] changes nothing that was there: the fields of
    the instance, the records and the elements of the document are as
    they were; the container it returns and the buttons, its children,
    are the new elements. *)
Theorem renderSettings_frame σ :
  valid_token (CSS_settingsButton (this σ)) = true →
  valid_token (CSS_settingsButtonActive (this σ)) = true →
  ∃ sc bs σ',
    renderSettings σ = (Normal sc, σ') ∧
    this σ' = this σ ∧ records σ' = records σ ∧
    childNodes (elements σ' !!! sc) = Child <$> bs ∧
    (sc ∉ dom (elements σ)) ∧
    Forall (λ b, b ∉ dom (elements σ)) bs ∧
    (∀ l, l ∈ dom (elements σ')
          ↔ l ∈ bs ∨ l = sc ∨ l ∈ dom (elements σ)) ∧
    (∀ l e, elements σ !! l = Some e → closed (elements σ) e →
       elements σ' !! l = Some e).
Proof.
  intros Hsb Hactive.
  destruct (renderSettings_exact σ Hsb Hactive) as
    (sc & bs & σ' & Hrun & Hsc & Hthis & Hrec & (esc & Hesc & ->) & Hbs & _
     & Hdom & Hframe).
  exists sc, bs, σ'. split_and!; try done.
  - by rewrite (lookup_total_correct _ _ _ Hesc).
  - clear -Hbs. induction Hbs as [|ty b types bs [Hb _] _ IH]; by constructor.
Qed.

Lemma restyled_refl els : restyled els els.
Proof.
  split; [done |]. intros l e Hl. exists e. split; [done | by destruct e].
Qed.

Lemma restyled_trans els1 els2 els3 :
  restyled els1 els2 → restyled els2 els3 → restyled els1 els3.
Proof.
  intros [Hd1 H1] [Hd2 H2]. split; [by rewrite Hd2 |].
  intros l e Hl. destruct (H1 l e Hl) as (e2 & Hl2 & He2).
  destruct (H2 l e2 Hl2) as (e3 & Hl3 & He3).
  exists e3. split; [done |].
  destruct e, e2, e3. unfold with_classList in *. simpl in *. congruence.
Qed.

Lemma restyled_alter f l (els : gmap loc Element) :
  restyled els (alter (with_classList f) l els).
Proof.
  split; [apply dom_alter_L |]. intros l' e Hl'.
  destruct (decide (l = l')) as [-> | Hne].
  - rewrite lookup_alter_eq, Hl'. eexists. split; [done |]. by destruct e.
  - rewrite lookup_alter_ne, Hl' by done. exists e.
    split; [done | by destruct e].
Qed.

Lemma restyled_unhighlighted active buttons : ∀ els,
  restyled els (unhighlighted active els buttons).
Proof.
  induction buttons as [|b buttons IH]; intros els; [apply restyled_refl |].
  change (unhighlighted active els (b :: buttons)) with
    (unhighlighted active
       (alter (with_classList (λ cl, foldl remove_token cl [active])) b els)
       buttons).
  eapply restyled_trans; [apply restyled_alter | apply IH].
Qed.

Lemma restyled_fields els els' l :
  restyled els els' →
  childNodes (els' !!! l) = childNodes (els !!! l) ∧
  listeners (els' !!! l) = listeners (els !!! l).
Proof.
  intros [Hdom Hels]. rewrite !lookup_total_alt.
  destruct (els !! l) as [e|] eqn:Hl.
  - destruct (Hels l e Hl) as (e' & -> & ->). done.
  - apply not_elem_of_dom in Hl. rewrite <- Hdom in Hl.
    apply not_elem_of_dom in Hl. by rewrite Hl.
Qed.

Lemma descendantsUpTo_ext depth els els' :
  (∀ l, childNodes (els' !!! l) = childNodes (els !!! l)) →
  ∀ el, descendantsUpTo depth els' el = descendantsUpTo depth els el.
Proof.
  intros Hkids. induction depth as [|depth IH]; intros el; [done |].
  cbn [descendantsUpTo]. rewrite Hkids. apply flat_map_ext.
  intros [html|c]; [done |]. by rewrite IH.
Qed.

Lemma descendants_restyled els els' el :
  restyled els els' → descendants els' el = descendants els el.
Proof.
  intros Hre. unfold descendants.
  rewrite <- (size_dom els'), <- (size_dom els), (proj1 Hre).
  apply descendantsUpTo_ext. intros l. by apply restyled_fields.
Qed.

(** The click handlers of an element, one after the other: they change
    class lists and the type of the data, and nothing else. *)
Lemma listeners_restyle c ls : ∀ σ,
  class_name (CSS_settingsButton (this σ)) = true →
  valid_token (CSS_settingsButtonActive (this σ)) = true →
  container (this σ) = Some c →
  ∃ σ',
    forEach (λ '(event, l),
      if String.eqb event "click" then runListener l else mret ()) ls σ
      = (Normal (), σ') ∧
    this σ' = this σ ∧
    restyled (elements σ) (elements σ') ∧
    dom (records σ') = dom (records σ) ∧
    (∀ l, l ≠ data (this σ) → records σ' !! l = records σ !! l) ∧
    message (currentData σ') = message (currentData σ).
Proof.
  induction ls as [|[event [ty sc sb]] ls IH]; intros σ Hsb Hactive Hc.
  { exists σ. split_and!; try done. apply restyled_refl. }
  cbn [forEach]. rewrite bind_run. destruct (String.eqb event "click").
  - rewrite (runListener_run _ c) by done. cbv zeta beta iota.
    match goal with |- ∃ _, forEach _ _ ?σ1 = _ ∧ _ =>
      destruct (IH σ1) as (σ' & Hrun & Hthis & Hre & Hdom & Hrec & Hmsg);
        [done | done | done |]
    end.
    cbn [this elements records data] in Hthis, Hre, Hdom, Hrec, Hmsg.
    exists σ'. split_and!; [exact Hrun | done | | | |].
    + eapply restyled_trans; [| exact Hre].
      eapply restyled_trans; [apply restyled_alter |].
      eapply restyled_trans;
        [apply restyled_unhighlighted | apply restyled_alter].
    + by rewrite Hdom, dom_alter_L.
    + intros l Hl. by rewrite Hrec, lookup_alter_ne.
    + rewrite Hmsg. unfold currentData. js_simpl.
      rewrite lookup_total_alter_eq, lookup_total_alt.
      by destruct (records σ !! data (this σ)).
  - apply IH; done.
Qed.

(** X18: a click on an element of a rendered block changes class lists
    and the type of the data, and nothing else: the fields of the
    instance, the elements there are, their tags, attributes, children
    and handlers, the message of the data and the other records are as
    they were. *)
Theorem click_frame σ b :
  class_name (CSS_settingsButton (this σ)) = true →
  valid_token (CSS_settingsButtonActive (this σ)) = true →
  is_Some (container (this σ)) →
  ∃ σ',
    click b σ = (Normal (), σ') ∧
    this σ' = this σ ∧
    restyled (elements σ) (elements σ') ∧
    dom (records σ') = dom (records σ) ∧
    (∀ l, l ≠ data (this σ) → records σ' !! l = records σ !! l) ∧
    message (currentData σ') = message (currentData σ).
Proof.
  intros Hsb Hactive [c Hc]. unfold click, getElement. rewrite bind_gets.
  by apply (listeners_restyle c).
Qed.

Lemma filter_all {A} (f : A → bool) (l : list A) :
  Forall (λ x, f x = true) l → List.filter f l = l.
Proof.
  induction 1 as [|x l Hx _ IH]; [done |]. simpl. by rewrite Hx, IH.
Qed.

Lemma unhighlighted_never_adds active buttons : ∀ els l cls,
  cls ∈ classList (unhighlighted active els buttons !!! l) →
  cls ∈ classList (els !!! l).
Proof.
  induction buttons as [|b buttons IH]; intros els l cls; [done |].
  change (unhighlighted active els (b :: buttons)) with
    (unhighlighted active
       (alter (with_classList (λ cl, foldl remove_token cl [active])) b els)
       buttons).
  intros Hin%IH. revert Hin. rewrite lookup_total_alter.
  case_decide as Heq; [subst l | done]. rewrite lookup_total_alt.
  destruct (els !! b) as [e|]; [| done]. simpl.
  rewrite elem_of_remove_token. tauto.
Qed.

Lemma unhighlighted_removed active buttons : ∀ els l,
  l ∈ buttons → active ∉ classList (unhighlighted active els buttons !!! l).
Proof.
  induction buttons as [|b buttons IH]; intros els l Hin.
  { by apply elem_of_nil in Hin. }
  change (unhighlighted active els (b :: buttons)) with
    (unhighlighted active
       (alter (with_classList (λ cl, foldl remove_token cl [active])) b els)
       buttons).
  apply elem_of_cons in Hin as [-> | Hin]; [| by apply IH].
  intros Hact%unhighlighted_never_adds. revert Hact.
  rewrite lookup_total_alter_eq. destruct (els !! b) as [e|]; simpl.
  - rewrite elem_of_remove_token. tauto.
  - apply not_elem_of_nil.
Qed.


(** A click on a button of the settings shown. *)
Lemma click_shown_run σ c sc bs i ty b :
  settings_shown σ c sc bs →
  ALERT_TYPES !! i = Some ty → bs !! i = Some b →
  click b σ =
    (Normal (),
     {| this := this σ;
        elements :=
          alter (with_classList (λ cl,
                   foldl add_token cl [CSS_settingsButtonActive (this σ)])) b
            (unhighlighted (CSS_settingsButtonActive (this σ))
               (alter (with_classList (retyped ty)) c (elements σ)) bs);
        records :=
          alter (with_type (JString ty)) (data (this σ)) (records σ) |}).
Proof.
  intros ((Hapi & Hc & Hec & Hd & Hls) & Hdesc & Hcls & Hnd & Hcbs) Hty Hb.
  pose proof (Forall2_lookup_lr _ _ _ _ _ _ Hls Hty Hb) as Hl.
  rewrite (click_run _ _ _ Hl), bind_run, (runListener_run _ c);
    [| by destruct Hapi | by apply wf_api_tokens | done].
  cbv zeta beta iota.
  rewrite (descendants_restyled (elements σ)) by apply restyled_alter.
  rewrite Hdesc, filter_all; [done |].
  rewrite Forall_forall in Hcls |- *. intros b' Hb'.
  rewrite <- (Hcls b' Hb'). unfold hasClass.
  rewrite lookup_total_alter_ne; [done |]. by intros ->.
Qed.

Lemma descendants_buttons (els : gmap loc Element) sc esc bs :
  els !! sc = Some esc → childNodes esc = Child <$> bs →
  (∀ b x, b ∈ bs → Child x ∉ childNodes (els !!! b)) →
  descendants els sc = bs.
Proof.
  intros Hsc Hkids Hleaf. unfold descendants.
  destruct (size els) as [|n] eqn:Hsize.
  { by apply map_size_ne_0_lookup_2 with (i := sc) in Hsize. }
  cbn [descendantsUpTo]. rewrite (lookup_total_correct _ _ _ Hsc), Hkids.
  clear Hkids. induction bs as [|b bs IH]; [done |].
  cbn [fmap list_fmap flat_map].
  rewrite descendantsUpTo_leaf by (intros x; apply Hleaf; by left).
  cbn [app]. f_equal. apply IH. intros b' x Hb'. apply Hleaf. by right.
Qed.

Lemma wf_api_button_class a :
  wf_api a → styles_settingsButton a ≠ styles_settingsButtonActive a.
Proof. intros (_ & _ & Hactive) Heq. apply Hactive. rewrite Heq. by left. Qed.

(** [renderSettings] on a rendered block shows the settings. *)
Lemma renderSettings_shown σ c :
  wf_api (api (this σ)) → wf_state σ → container (this σ) = Some c →
  ∃ sc bs σ',
    renderSettings σ = (Normal sc, σ') ∧
    settings_shown σ' c sc bs ∧
    this σ' = this σ ∧ records σ' = records σ ∧
    childNodes (elements σ' !!! sc) = Child <$> bs ∧
    (sc ∉ dom (elements σ)) ∧
    Forall (λ b, b ∉ dom (elements σ)) bs ∧
    Forall2 (is_settingsButton (this σ) (type (currentData σ))
               (elements σ') sc) ALERT_TYPES bs ∧
    (∀ l e, elements σ !! l = Some e → closed (elements σ) e →
       elements σ' !! l = Some e).
Proof.
  intros Hapi [Hdata Hcont] Hc. destruct (Hcont c Hc) as [ec Hec].
  destruct (renderSettings_exact σ) as
    (sc & bs & σ' & Hrun & Hsc & Hthis & Hrec & (esc & Hesc & ->) & Hbs & Hnd
     & Hdom & Hframe); [by apply wf_api_tokens.. |].
  assert (Forall (λ b, b ∉ dom (elements σ)) bs) as Hfresh.
  { clear -Hbs. induction Hbs as [|ty b types bs (Hb & _) _ IH];
      by constructor. }
  assert (Forall2 (λ ty b,
            ty ∈ ALERT_TYPES ∧
            elements σ' !! b
              = Some (settingsButtonElement (this σ) (currentData σ) ty sc b))
            ALERT_TYPES bs) as Hbs'.
  { apply Forall2_same_length_lookup. split; [by eapply Forall2_length |].
    intros i ty b Hty Hb. split; [by eapply list_elem_of_lookup_2 |].
    by destruct (Forall2_lookup_lr _ _ _ _ _ _ Hbs Hty Hb) as (_ & _ & Heb). }
  assert (∀ b, b ∈ bs → ∃ ty,
            ty ∈ ALERT_TYPES ∧
            elements σ' !! b
              = Some (settingsButtonElement (this σ) (currentData σ) ty sc b))
    as Hbutton.
  { intros b [i Hb]%list_elem_of_lookup.
    destruct (Forall2_lookup_r _ _ _ _ _ Hbs' Hb) as (ty & _ & Hty). by exists ty. }
  exists sc, bs, σ'. split_and!; try done.
  - split_and!.
    + split_and!.
      * by rewrite Hthis.
      * by rewrite Hthis.
      * apply elem_of_dom, Hdom. right. right. by apply elem_of_dom.
      * by rewrite Hthis, Hrec.
      * eapply Forall2_impl; [exact Hbs' |]. intros ty b [_ Heb].
        by rewrite (lookup_total_correct _ _ _ Heb).
    + eapply descendants_buttons; [exact Hesc | done |].
      intros b x (ty & _ & Heb)%Hbutton.
      rewrite (lookup_total_correct _ _ _ Heb).
      apply settingsButtonElement_leaf.
    + apply Forall_forall. intros b (ty & Hty & Heb)%Hbutton.
      unfold hasClass. rewrite (lookup_total_correct _ _ _ Heb), Hthis.
      apply bool_decide_eq_true_2.
      by destruct (settingsButtonElement_classes (this σ) (currentData σ)
                     ty sc b Hapi Hty) as (? & _).
    + done.
    + intros Hin. rewrite Forall_forall in Hfresh.
      apply (Hfresh c Hin). by apply elem_of_dom.
  - by rewrite (lookup_total_correct _ _ _ Hesc).
  - eapply Forall2_impl; [exact Hbs' |]. intros ty b (Hty & Heb).
    exists (settingsButtonElement (this σ) (currentData σ) ty sc b).
    split; [done |].
    destruct (settingsButtonElement_classes (this σ) (currentData σ)
                ty sc b Hapi Hty) as (? & ? & ? & ?).
    by split_and!.
Qed.

Lemma NoDup_ALERT_TYPES : NoDup ALERT_TYPES.
Proof.
  unfold ALERT_TYPES. repeat (apply NoDup_cons; split);
    rewrite ?elem_of_cons, ?elem_of_nil; try (intuition discriminate).
  apply NoDup_nil_2.
Qed.

(** After a click on a button of the settings shown, the settings are
    still shown and the active class is on the button of the current
    type and on no other. *)
Lemma click_highlight σ c sc bs i ty b :
  settings_shown σ c sc bs →
  ALERT_TYPES !! i = Some ty → bs !! i = Some b →
  ∃ σ',
    click b σ = (Normal (), σ') ∧
    settings_shown σ' c sc bs ∧
    type (currentData σ') = JString ty ∧
    ∀ j ty' b', ALERT_TYPES !! j = Some ty' → bs !! j = Some b' →
      hasClass (elements σ') b' (CSS_settingsButtonActive (this σ')) = true
        ↔ type (currentData σ') = JString ty'.
Proof.
  intros Hshown Hty Hb.
  pose proof (click_shown_run σ c sc bs i ty b Hshown Hty Hb) as Hrun.
  destruct Hshown as (Hready & Hdesc & Hcls & Hnd & Hcbs).
  destruct (click_selects σ c sc bs i ty b Hready Hty Hb)
    as (σ' & Hclick & Hready' & Htype & _).
  rewrite Hclick in Hrun. injection Hrun as Hσ'.
  destruct Hready as (Hapi & Hc & Hec & Hd & Hls).
  set (active := CSS_settingsButtonActive (this σ)) in *.
  pose (els1 := alter (with_classList (retyped ty)) c (elements σ)).
  pose (U := unhighlighted active els1 bs).
  assert (this σ' = this σ) as Hthis by (by rewrite Hσ').
  assert (elements σ' =
            alter (with_classList (λ cl, foldl add_token cl [active])) b U)
    as Hels by (by rewrite Hσ').
  assert (restyled (elements σ) (elements σ')) as Hre.
  { rewrite Hels. eapply restyled_trans; [apply restyled_alter |].
    eapply restyled_trans;
      [apply restyled_unhighlighted | apply restyled_alter]. }
  assert (b ∈ bs) as Hbin by (by eapply list_elem_of_lookup_2).
  assert (is_Some (U !! b)) as [eb Heb].
  { apply elem_of_dom. subst U.
    rewrite (proj1 (restyled_unhighlighted active bs els1)).
    subst els1. rewrite dom_alter_L. apply elem_of_dom.
    pose proof (Forall2_lookup_lr _ _ _ _ _ _ Hls Hty Hb) as Hl.
    destruct (elements σ !! b) as [e|] eqn:Hlb; [by eexists |].
    assert (elements σ !!! b = inhabitant) as Heq
      by (by rewrite lookup_total_alt, Hlb).
    cbv beta in Hl. by rewrite Heq in Hl. }
  exists σ'. split_and!; [done | | done |].
  - split_and!; try done.
    + by rewrite (descendants_restyled (elements σ)).
    + rewrite Forall_forall in Hcls |- *. intros b' Hb'.
      rewrite <- (Hcls b' Hb'). unfold hasClass. apply bool_decide_ext.
      rewrite Hthis, Hels.
      assert (CSS_settingsButton (this σ) ≠ active) as Hne
        by (by apply wf_api_button_class).
      subst U. rewrite classList_alter_other, unhighlighted_other by
        (done || (intros cl; rewrite elem_of_add_tokens,
                    list_elem_of_singleton; tauto)).
      subst els1. rewrite lookup_total_alter_ne; [done |]. by intros ->.
  - intros j ty' b' Hty' Hb'. rewrite Htype, Hthis. fold active.
    unfold hasClass. rewrite bool_decide_eq_true, Hels.
    assert (b' ∈ bs) as Hbin' by (by eapply list_elem_of_lookup_2).
    destruct (decide (b' = b)) as [-> | Hne].
    + rewrite lookup_total_alter_eq, Heb. simpl.
      rewrite elem_of_add_token.
      assert (j = i) as -> by (by eapply NoDup_lookup).
      split; [intros _; congruence | by right].
    + rewrite lookup_total_alter_ne by done. split.
      * intros Hact. subst U. by apply unhighlighted_removed in Hact.
      * intros [= ->]. exfalso. apply Hne.
        assert (j = i) as -> by (eapply NoDup_lookup;
          [apply NoDup_ALERT_TYPES | done | done]).
        congruence.
Qed.

(** X19: at any time after the construction, on a rendered block, the
    elements below the container [renderSettings] returns are its
    buttons; after a click on one of them, and after any further click,
    the active class is on the button of the current type of the data
    and on no other button. *)
Theorem settings_highlight args cs σ0 c :
  let σ := calls cs (constructor args σ0).2 in
  wf_api (arg_api args) → container (this σ) = Some c →
  ∃ sc bs σ',
    renderSettings σ = (Normal sc, σ') ∧
    descendants (elements σ') sc = bs ∧
    settings_shown σ' c sc bs ∧
    ∀ σ1, settings_shown σ1 c sc bs →
      ∀ i ty b, ALERT_TYPES !! i = Some ty → bs !! i = Some b →
        ∃ σ2,
          click b σ1 = (Normal (), σ2) ∧
          settings_shown σ2 c sc bs ∧
          ∀ j ty' b', ALERT_TYPES !! j = Some ty' → bs !! j = Some b' →
            hasClass (elements σ2) b' (CSS_settingsButtonActive (this σ2))
              = true
              ↔ type (currentData σ2) = JString ty'.
Proof.
  intros σ Hapi Hc.
  assert (api (this σ) = arg_api args) as Hsame.
  { pose proof (constructed_configuration args cs σ0) as Hs. fold σ in Hs.
    by injection Hs. }
  rewrite <- Hsame in Hapi.
  destruct (renderSettings_shown σ c Hapi) as
    (sc & bs & σ' & Hrun & Hshown & _); [apply constructed_wf | done |].
  exists sc, bs, σ'. split_and!; [done | by destruct Hshown as (_ & ? & _) | done |].
  intros σ1 Hshown1 i ty b Hty Hb.
  destruct (click_highlight σ1 c sc bs i ty b Hshown1 Hty Hb)
    as (σ2 & Hclick & Hshown2 & _ & Hhl).
  by exists σ2.
Qed.



End FurtherSettings.

(** ** The statements on the example block *)



(** C2, as the specification states it, fails: the message of a valid
    record comes back from [render] and [save] as the browser serialises
    it, here with its angle bracket and its ampersand written as
    character references. *)
Lemma render_save_changes_message :
  let d := {| type := JString "info"; message := JString "1 < 2 & 3" |} in
  valid_record d ∧
  ∃ c r σ',
    (constructor {| arg_data := d; arg_config := arg_config exampleArgs;
                    arg_api := editorApi; arg_readOnly := JBool false |};;
     c ← render (H := plainHost); r ← save (H := plainHost) c; mret (c, r))
      initial = (Normal (c, r), σ') ∧
    message (records σ' !!! r) = JString "1 &lt; 2 &amp; 3" ∧
    message (records σ' !!! r) ≠ message d.
Proof.
  intros d. split.
  - exists "info", "1 < 2 & 3". split; [done |]. by left.
  - eexists _, _, _. split; [reflexivity |]. split; [reflexivity | done].
Qed.

Lemma render_save_roundtrip_witness :
  ∃ c r σ',
    (constructor exampleArgs;;
     c ← render (H := plainHost); r ← save (H := plainHost) c; mret (c, r))
      initial = (Normal (c, r), σ') ∧
    records σ' !! r = Some (arg_data exampleArgs).
Proof.
  destruct (render_save_roundtrip (H := plainHost) initial
              (arg_data exampleArgs) (arg_config exampleArgs) editorApi
              (JBool false))
    as (c & r & σ' & Hrun & _ & _ & Hsame).
  - exists "warnung", "Achtung". split; [done |].
    apply list_elem_of_In. vm_compute. tauto.
  - exists c, r, σ'. split; [exact Hrun |]. by apply Hsame.
Defined.

Lemma save_serializes_witness :
  ∃ r σ',
    save (H := plainHost) 0 exampleRendered = (Normal r, σ') ∧
    records σ' !! r =
      Some {| type := JString "warnung";
              message := JString "Achtung" |}.
Proof.
  destruct (save_serializes (H := plainHost) exampleRendered 0)
    as (d & r & σ' & before & after & Hds & _ & _ & Hrun & _ & Hr).
  - exists 1. split; [| reflexivity].
    apply list_elem_of_In. vm_compute. by left.
  - exists r, σ'. split; [exact Hrun |]. rewrite Hr.
    vm_compute in Hds. destruct before as [|x before].
    + injection Hds as <- _. reflexivity.
    + injection Hds as _ Hds. by destruct before.
Defined.

Lemma save_frame_witness :
  match save (H := plainHost) 0 exampleRendered with
  | (Normal r, σ') =>
      r ≠ data (this exampleRendered) ∧ this σ' = this exampleRendered
      ∧ elements σ' = elements exampleRendered
  | (Throw _, σ') => σ' = exampleRendered
  end.
Proof.
  pose proof (save_frame (H := plainHost) exampleArgs [CallRender] initial 0)
    as Hframe.
  change (calls [CallRender] (constructor exampleArgs initial).2)
    with exampleRendered in Hframe. cbv zeta in Hframe.
  destruct (save 0 exampleRendered) as [[r|e] σ'].
  - destruct Hframe as (_ & Hr & Hthis & Hels & _). by split_and!.
  - exact Hframe.
Defined.

Lemma onPaste_resets_witness :
  ∃ σ',
    onPaste (H := plainHost) {| detail_data := PastedElement 1 |}
      exampleRendered = (Normal (), σ') ∧
    currentData σ' =
      {| type := JString "info"; message := JString "Achtung" |}.
Proof.
  destruct (onPaste_resets (H := plainHost) exampleArgs [CallRender] initial
              {| detail_data := PastedElement 1 |})
    as (σ' & Hrun & _ & _ & _ & Htype & _ & _ & Hmessage).
  exists σ'. split; [exact Hrun |].
  specialize (Htype eq_refl). specialize (Hmessage 1 eq_refl).
  destruct (currentData σ') as [ty msg]. simpl in Htype, Hmessage.
  by rewrite Htype, Hmessage.
Defined.

Lemma renderSettings_click_witness :
  ∃ sc bs σ',
    renderSettings (H := plainHost) exampleRendered = (Normal sc, σ') ∧
    childNodes (elements σ' !!! sc) = Child <$> bs ∧
    NoDup bs ∧ length bs = 3 ∧ settings_ready (H := plainHost) σ' 0 sc bs.
Proof.
  destruct (renderSettings_click (H := plainHost) exampleArgs [CallRender]
              initial)
    as (sc & bs & σ' & Hrun & Hkids & Hbs & Hnd & Hclick).
  - split_and!; [reflexivity | reflexivity |].
    intros Hin%list_elem_of_In. vm_compute in Hin. intuition discriminate.
  - exists sc, bs, σ'. split_and!; [exact Hrun | done | done | |].
    + by apply Forall2_length in Hbs.
    + by apply (Hclick 0 eq_refl).
Defined.


(** The example block in use: a click on the second settings button, a
    paste, and what [save] returns afterwards. *)
Example click_hinweis :
  let σ := (click (H := plainHost) 4 exampleSettings).2 in
  currentData σ
    = {| type := JString "hinweis"; message := JString "Achtung" |}
  ∧ classList (elements σ !!! 0) = ["meldung"; "meldung_hinweis"]
  ∧ classList (elements σ !!! 4)
    = ["cdx-settings-button"; "meldung"; "meldung_hinweis";
       "cdx-settings-button--active"]
  ∧ classList (elements σ !!! 5)
    = ["cdx-settings-button"; "meldung"; "meldung_warnung"].
Proof. by vm_compute. Qed.

Example click_then_save :
  let '(r, σ) :=
    (click (H := plainHost) 3;; save (H := plainHost) 0) exampleSettings in
  r = Normal 1
  ∧ records σ !! 1
    = Some {| type := JString "info"; message := JString "Achtung" |}.
Proof. by vm_compute. Qed.

Example paste_then_render :
  let '(r, σ) :=
    (onPaste (H := plainHost) {| detail_data := PastedOther JUndefined |};;
     render (H := plainHost)) exampleSettings in
  r = Normal 6
  ∧ currentData σ = {| type := JString "info"; message := JString "" |}
  ∧ classList (elements σ !!! 6) = ["meldung"; "meldung_info"]
  ∧ childNodes (elements σ !!! 7) = [].
Proof. by vm_compute. Qed.

(** The elements the parser builds are elements of the document: in a
    block built from [exampleMarkup], element 2 is the paragraph inside
    the message element 1; [save] on the message element finds the
    paragraph, and [save] on the container the message element. *)
Example save_finds_parsed :
  let σ :=
    ((constructor
        {| arg_data := {| type := JString "info";
                          message := JString exampleMarkup |};
           arg_config := arg_config exampleArgs; arg_api := editorApi;
           arg_readOnly := JBool false |};;
      render (H := markupHost)) initial).2 in
  descendants (elements σ) 0 = [1; 2]
  ∧ (let '(r, σ') := save (H := markupHost) 1 σ in
     r = Normal 1 ∧ message (records σ' !!! 1) = JString "x")
  ∧ (let '(r, σ') := save (H := markupHost) 0 σ in
     r = Normal 1
     ∧ message (records σ' !!! 1)
       = JString ("<p class=" ++ quote ++ "cdx-alert__message" ++ quote
                  ++ ">x</p>")).
Proof. by vm_compute. Qed.

(** The further properties on the example block. *)

Ltac editorApi_wf :=
  split_and!;
    [reflexivity | reflexivity
    | intros Hin%list_elem_of_In; vm_compute in Hin; intuition discriminate].






Lemma empty_message_roundtrip_witness :
  ∃ c m r σ',
    (constructor
       {| arg_data := {| type := JString "info"; message := JUndefined |};
          arg_config := arg_config exampleArgs; arg_api := editorApi;
          arg_readOnly := JBool false |};;
     c ← render (H := plainHost); r ← save (H := plainHost) c; mret (c, r))
      initial = (Normal (c, r), σ') ∧
    childNodes (elements σ' !!! m) = [] ∧
    message (records σ' !!! r) = JString "".
Proof.
  destruct (empty_message_roundtrip (H := plainHost) initial
              {| arg_data := {| type := JString "info";
                                message := JUndefined |};
                 arg_config := arg_config exampleArgs; arg_api := editorApi;
                 arg_readOnly := JBool false |})
    as (c & m & r & σ' & Hrun & _ & Hkids & Hmsg);
    [reflexivity | reflexivity |].
  exists c, m, r, σ'. split_and!; assumption.
Defined.


Lemma changeAlertType_classes_witness :
  ∃ σ' e',
    _changeAlertType (H := plainHost) "hinweis" exampleRendered
      = (Normal (), σ') ∧
    elements σ' !! 0 = Some e' ∧
    classList e' = ["meldung"; "meldung_hinweis"].
Proof.
  destruct (_changeAlertType_classes (H := plainHost) exampleRendered 0
              (elements exampleRendered !!! 0) "hinweis")
    as (σ' & e' & Hrun & _ & _ & _ & He' & _ & Hcl);
    [reflexivity | reflexivity |].
  exists σ', e'. split_and!; [exact Hrun | exact He' |].
  rewrite Hcl. reflexivity.
Defined.

Lemma changeAlertType_last_wins_witness :
  (_changeAlertType (H := plainHost) "info";;
   _changeAlertType (H := plainHost) "hinweis") exampleRendered
  = _changeAlertType (H := plainHost) "hinweis" exampleRendered.
Proof.
  apply (_changeAlertType_last_wins (H := plainHost)). by eexists.
Defined.


Lemma renderSettings_frame_witness :
  ∃ sc bs σ',
    renderSettings (H := plainHost) exampleRendered = (Normal sc, σ') ∧
    childNodes (elements σ' !!! sc) = Child <$> bs ∧
    elements σ' !! 0 = elements exampleRendered !! 0.
Proof.
  destruct (renderSettings_frame (H := plainHost) exampleRendered)
    as (sc & bs & σ' & Hrun & _ & _ & Hkids & _ & _ & _ & Hframe);
    [reflexivity | reflexivity |].
  exists sc, bs, σ'. split_and!; [exact Hrun | exact Hkids |].
  transitivity (Some (elements exampleRendered !!! 0)); [| reflexivity].
  apply Hframe; [reflexivity |].
  intros x Hx. change (childNodes _) with [Child 1] in Hx.
  apply list_elem_of_singleton in Hx. injection Hx as ->.
  apply elem_of_dom. eexists. reflexivity.
Defined.

Lemma click_frame_witness :
  ∃ σ',
    click (H := plainHost) 4 exampleSettings = (Normal (), σ') ∧
    this σ' = this exampleSettings ∧
    message (currentData σ') = message (currentData exampleSettings).
Proof.
  destruct (click_frame (H := plainHost) exampleSettings 4)
    as (σ' & Hrun & Hthis & _ & _ & _ & Hmsg);
    [reflexivity | reflexivity | eexists; reflexivity |].
  exists σ'. split_and!; [exact Hrun | exact Hthis | exact Hmsg].
Defined.

Lemma settings_highlight_witness :
  ∃ sc bs σ',
    renderSettings (H := plainHost) exampleRendered = (Normal sc, σ') ∧
    descendants (elements σ') sc = bs ∧
    settings_shown (H := plainHost) σ' 0 sc bs.
Proof.
  destruct (settings_highlight (H := plainHost) exampleArgs [CallRender]
              initial 0)
    as (sc & bs & σ' & Hrun & Hdesc & Hshown & _);
    [editorApi_wf | reflexivity |].
  exists sc, bs, σ'. split_and!; [exact Hrun | exact Hdesc | exact Hshown].
Defined.


